(** * Documentation search server: section parser and keyword search

    A shallow embedding of [DocumentParser] from [temp.py]: the
    header-driven section parser [_parse_sections], the merged index
    built by [__init__], the two searches and the section lookup,
    followed by the properties of these functions.

    Python values are modelled as follows.
    - [str] is a list of characters; a character is an 8-bit code point
      (the Latin-1 range of Python's [str]), with [isspace] and [lower]
      as Python defines them on that range.
    - A [dict] with string keys is an association list in insertion
      order: assigning to a key that is present replaces the value in
      place, assigning to a new key appends.  Keys are therefore unique,
      and iteration ([items]) is the list itself.
    - Python integers used here (levels, counts, lengths) are naturals. *)

From Stdlib Require Import Ascii String DecimalString.
From Stdlib Require Import List Arith ZArith Lia Bool.
From Stdlib Require Import Permutation Sorting.Sorted FinFun.
Import ListNotations.

Set Implicit Arguments.

(** ** Python strings *)

Module PyStr.

Definition str := list ascii.

(** String literals of the development. *)
Definition py (s : string) : str := list_ascii_of_string s.
Arguments py s%_string.

Definition LF : ascii := "010"%char.
Definition HASH : ascii := "#"%char.

Definition str_dec : forall a b : str, {a = b} + {a <> b} :=
  list_eq_dec ascii_dec.

Definition str_eqb (a b : str) : bool :=
  if str_dec a b then true else false.

(** [str.isspace] on one character, which is also the class [\s] of
    [re] and the set removed by [str.strip()] and [str.split()]:
    TAB..CR, FS..US, space, NEL and NBSP. *)
Definition isspace (c : ascii) : bool :=
  let n := nat_of_ascii c in
  ((9 <=? n) && (n <=? 13)) || ((28 <=? n) && (n <=? 32))
  || (n =? 133) || (n =? 160).

(** [str.lower] on one character: A..Z and the Latin-1 capitals
    (192..222 without the multiplication sign 215) move up by 32. *)
Definition lower_char (c : ascii) : ascii :=
  let n := nat_of_ascii c in
  if ((65 <=? n) && (n <=? 90))
     || ((192 <=? n) && (n <=? 222) && negb (n =? 215))
  then ascii_of_nat (n + 32) else c.

Definition lower (s : str) : str := map lower_char s.

(** [s.split("\n")]: always at least one piece. *)
Fixpoint split_lines (s : str) : list str :=
  match s with
  | [] => [[]]
  | c :: s' =>
      if Ascii.eqb c LF then [] :: split_lines s'
      else match split_lines s' with
           | l :: ls => (c :: l) :: ls
           | [] => [[c]]
           end
  end.

(** [sep.join(l)]. *)
Fixpoint join (sep : str) (l : list str) : str :=
  match l with
  | [] => []
  | x :: rest =>
      match rest with
      | [] => x
      | _ :: _ => x ++ sep ++ join sep rest
      end
  end.

Fixpoint dropwhile (A : Type) (p : A -> bool) (l : list A) : list A :=
  match l with
  | [] => []
  | x :: l' => if p x then dropwhile p l' else l
  end.

Fixpoint takewhile (A : Type) (p : A -> bool) (l : list A) : list A :=
  match l with
  | [] => []
  | x :: l' => if p x then x :: takewhile p l' else []
  end.

Definition lstrip (s : str) : str := dropwhile isspace s.
Definition rstrip (s : str) : str := rev (dropwhile isspace (rev s)).

(** [s.strip()]. *)
Definition strip (s : str) : str := rstrip (lstrip s).

(** [s.split()]: the maximal runs of non-whitespace characters.  [cur]
    is the run being read, in reverse. *)
Fixpoint split_ws_aux (cur : str) (s : str) : list str :=
  match s with
  | [] => match cur with [] => [] | _ :: _ => [rev cur] end
  | c :: s' =>
      if isspace c then
        match cur with
        | [] => split_ws_aux [] s'
        | _ :: _ => rev cur :: split_ws_aux [] s'
        end
      else split_ws_aux (c :: cur) s'
  end.

Definition split_ws (s : str) : list str := split_ws_aux [] s.

(** [s.startswith(p)]. *)
Fixpoint startswith (p s : str) : bool :=
  match p, s with
  | [], _ => true
  | _ :: _, [] => false
  | a :: p', b :: s' => Ascii.eqb a b && startswith p' s'
  end.

(** [sub in s]. *)
Fixpoint contains (sub s : str) : bool :=
  startswith sub s
  || match s with
     | [] => false
     | _ :: s' => contains sub s'
     end.

(** [s.count(sub)] for a non-empty [sub]: scan from the left, and after
    an occurrence resume behind it.  [skip] is the number of characters
    still covered by the occurrence found last. *)
Fixpoint count_scan (sub : str) (skip : nat) (s : str) : nat :=
  match s with
  | [] => 0
  | _ :: s' =>
      match skip with
      | S k => count_scan sub k s'
      | O => if startswith sub s
             then S (count_scan sub (length sub - 1) s')
             else count_scan sub 0 s'
      end
  end.

(** [s.count(sub)]; the empty [sub] is found between all characters and
    at both ends. *)
Definition count (s sub : str) : nat :=
  match sub with
  | [] => length s + 1
  | _ :: _ => count_scan sub 0 s
  end.

(** [s[:n]] for [n >= 0]. *)
Definition slice_to (n : nat) (s : str) : str := firstn n s.

End PyStr.

Import PyStr.

(** ** Python dictionaries with string keys *)

Module PyDict.
Section Dict.

Variable V : Type.

Definition dict := list (str * V).

(** [d.get(k)]. *)
Fixpoint get (d : dict) (k : str) : option V :=
  match d with
  | [] => None
  | (k', v) :: d' => if str_eqb k' k then Some v else get d' k
  end.

(** [d[k] = v]: a key that is present keeps its place. *)
Fixpoint set (d : dict) (k : str) (v : V) : dict :=
  match d with
  | [] => [(k, v)]
  | (k', v') :: d' =>
      if str_eqb k' k then (k', v) :: d' else (k', v') :: set d' k v
  end.

(** [{**a, **b}]: a copy of [a] that receives the items of [b] in
    order. *)
Definition merge (a b : dict) : dict :=
  fold_left (fun d kv => set d (fst kv) (snd kv)) b a.

Definition keys (d : dict) : list str := map fst d.
Definition values (d : dict) : list V := map snd d.

End Dict.
End PyDict.

(** ** Python's [sorted(l, key=..., reverse=...)] on integer keys

    [sorted] is stable, also with [reverse=True]: elements with equal
    keys keep their order.  A stable sort has one possible result, so
    insertion from the right stands for the built-in. *)

Section SortedBuiltin.

Variable A : Type.
Variable key : A -> nat.
Variable reverse : bool.

Definition goes_first (x y : A) : bool :=
  if reverse then key y <=? key x else key x <=? key y.

Fixpoint insert_sorted (x : A) (l : list A) : list A :=
  match l with
  | [] => [x]
  | y :: l' => if goes_first x y then x :: l else y :: insert_sorted x l'
  end.

Definition sorted (l : list A) : list A := fold_right insert_sorted [] l.

(** The order of the result: ascending keys, or descending ones under
    [reverse]. *)
Definition in_order (x y : A) : Prop :=
  if reverse then key y <= key x else key x <= key y.

End SortedBuiltin.

(** [enumerate(l)]. *)
Definition enumerate (A : Type) (l : list A) : list (nat * A) :=
  combine (seq 0 (length l)) l.

(** [l[a:b]] for [0 <= a] and [0 <= b]. *)
Definition slice (A : Type) (a b : nat) (l : list A) : list A :=
  firstn (b - a) (skipn a l).

(** ** The section parser *)

(** The values of the dictionaries built by [_parse_sections]. *)
Record section_data := {
  title : str;
  content : str;
  level : nat;
  doc_type : str;
  word_count : nat
}.

(** The greedy [#{1,6}]: the leading hashes, at most [n] of them. *)
Fixpoint take_hashes (n : nat) (s : str) : str :=
  match n, s with
  | S n', c :: s' => if Ascii.eqb c HASH then c :: take_hashes n' s' else []
  | _, _ => []
  end.

(** [re.match(r"^(#{1,6})\s+(.+)$", line, re.MULTILINE)] on a physical
    line, that is a string without line feed, as [split] yields them:
    the groups 1 and 2 of the match, if any.  The hashes cannot give
    back a character, since the one after them must be whitespace;
    [\s+] takes the whole run of whitespace and gives back its last
    character when nothing else is left for [(.+)]. *)
Definition header_match (line : str) : option (str * str) :=
  let group1 := take_hashes 6 line in
  let rest := skipn (length group1) line in
  let spaces := takewhile isspace rest in
  let remainder := dropwhile isspace rest in
  match group1 with
  | [] => None
  | _ :: _ =>
      match spaces with
      | [] => None
      | c :: spaces' =>
          match remainder with
          | _ :: _ => Some (group1, remainder)
          | [] =>
              match spaces' with
              | [] => None
              | _ :: _ => Some (group1, [last spaces' c])
              end
          end
      end
  end.

(** The local variables of the loop of [_parse_sections];
    [current_section = None] is Python's [None]. *)
Record parse_state := {
  sections : PyDict.dict section_data;
  current_section : option str;
  current_content : list str;
  current_level : nat
}.

(** [if current_section:] holds for a string that is not empty. *)
Definition truthy (o : option str) : bool :=
  match o with
  | Some (_ :: _) => true
  | _ => false
  end.

(** The dictionary literal [{"title": current_section, "content": ...,
    "level": current_level, "doc_type": doc_type, "word_count": ...}];
    the source has it twice, with the same text. *)
Definition section_record (dtype : str) (current_section : str)
  (current_content : list str) (current_level : nat) : section_data :=
  {| title := current_section;
     content := strip (join [LF] current_content);
     level := current_level;
     doc_type := dtype;
     word_count := length (split_ws (join [LF] current_content)) |}.

(** The assignment [sections[current_section] = {...}] under its guard
    [if current_section:], in the loop and behind it. *)
Definition save_section (dtype : str) (st : parse_state)
  : PyDict.dict section_data :=
  match current_section st with
  | Some name =>
      if truthy (current_section st) then
        PyDict.set (sections st) name
          (section_record dtype name (current_content st) (current_level st))
      else sections st
  | None => sections st
  end.

(** One round of [for line in lines]. *)
Definition parse_line (dtype : str) (st : parse_state) (line : str)
  : parse_state :=
  match header_match line with
  | Some (group1, group2) =>
      let title := strip group2 in
      {| sections := save_section dtype st;
         current_section := Some (dtype ++ py ": " ++ title);
         current_content := [line];
         current_level := length group1 |}
  | None =>
      if truthy (current_section st) then
        {| sections := sections st;
           current_section := current_section st;
           current_content := current_content st ++ [line];
           current_level := current_level st |}
      else st
  end.

Definition parse_init : parse_state :=
  {| sections := [];
     current_section := None;
     current_content := [];
     current_level := 0 |}.

Definition _parse_sections (content : str) (dtype : str)
  : PyDict.dict section_data :=
  let lines := split_lines content in
  save_section dtype (fold_left (parse_line dtype) lines parse_init).

(** ** The document index *)

Record DocumentParser := {
  mcp_sections : PyDict.dict section_data;
  sdk_sections : PyDict.dict section_data;
  all_sections : PyDict.dict section_data
}.

(** [DocumentParser.__init__]; the two documents are module constants
    of the source and parameters here. *)
Definition DocumentParser_init (MCP_DOCS_CONTENT PYTHON_SDK_CONTENT : str)
  : DocumentParser :=
  let mcp := _parse_sections MCP_DOCS_CONTENT (py "MCP Documentation") in
  let sdk := _parse_sections PYTHON_SDK_CONTENT (py "Python SDK") in
  {| mcp_sections := mcp;
     sdk_sections := sdk;
     all_sections := PyDict.merge mcp sdk |}.

(** ** Search by section name *)

Record name_result := {
  nr_section_name : str;
  nr_doc_type : str;
  nr_level : nat;
  nr_word_count : nat;
  nr_preview : str
}.

(** The conditional expression under ["preview"]. *)
Definition preview_of (text : str) : str :=
  if 200 <? length text then slice_to 200 text ++ py "..." else text.

(** One round of the loop over [self.all_sections.items()]. *)
Definition name_step (search_keyword : str) (case_sensitive : bool)
  (results : list name_result) (item : str * section_data)
  : list name_result :=
  let (section_name, data) := item in
  let search_name := if case_sensitive then section_name
                     else lower section_name in
  if contains search_keyword search_name then
    results ++ [ {| nr_section_name := section_name;
                    nr_doc_type := doc_type data;
                    nr_level := level data;
                    nr_word_count := word_count data;
                    nr_preview := preview_of (content data) |} ]
  else results.

Definition search_by_section_name (self : DocumentParser)
  (keyword : str) (case_sensitive : bool) : list name_result :=
  let search_keyword := if case_sensitive then keyword else lower keyword in
  let results :=
    fold_left (name_step search_keyword case_sensitive)
      (all_sections self) [] in
  sorted nr_level false results.

(** ** Search by content *)

Record content_result := {
  cr_section_name : str;
  cr_doc_type : str;
  cr_level : nat;
  cr_word_count : nat;
  cr_matching_context : str;
  cr_match_count : nat
}.

(** One round of the loop over [enumerate(content_lines)].  At [i = 0]
    the source computes [max(0, -1)]; the truncated subtraction gives
    the same 0. *)
Definition context_step (content_lines : list str) (search_keyword : str)
  (case_sensitive : bool) (matching_lines : list str) (item : nat * str)
  : list str :=
  let (i, line) := item in
  let search_line := if case_sensitive then line else lower line in
  if contains search_keyword search_line then
    let context_start := Nat.max 0 (i - 1) in
    let context_end := Nat.min (length content_lines) (i + 2) in
    let context := slice context_start context_end content_lines in
    matching_lines ++ context
  else matching_lines.

(** One round of the loop over [self.all_sections.items()]. *)
Definition content_step (search_keyword : str) (case_sensitive : bool)
  (results : list content_result) (item : str * section_data)
  : list content_result :=
  let (section_name, data) := item in
  let search_content := if case_sensitive then content data
                        else lower (content data) in
  if contains search_keyword search_content then
    let content_lines := split_lines (content data) in
    let matching_lines :=
      fold_left (context_step content_lines search_keyword case_sensitive)
        (enumerate content_lines) [] in
    results ++ [ {| cr_section_name := section_name;
                    cr_doc_type := doc_type data;
                    cr_level := level data;
                    cr_word_count := word_count data;
                    cr_matching_context :=
                      join [LF] (firstn 10 matching_lines);
                    cr_match_count := count search_content search_keyword |} ]
  else results.

Definition search_by_content_text (self : DocumentParser)
  (keyword : str) (case_sensitive : bool) : list content_result :=
  let search_keyword := if case_sensitive then keyword else lower keyword in
  let results :=
    fold_left (content_step search_keyword case_sensitive)
      (all_sections self) [] in
  sorted cr_match_count true results.

(** ** Lookup and listing *)

(** [get_section_content], in state-passing form: the result, [None]
    for a missing name, and the object after the call. *)
Definition get_section_content (self : DocumentParser) (section_name : str)
  : option section_data * DocumentParser :=
  (PyDict.get (all_sections self) section_name, self).

(** ** The document as a sequence of chunks

    The view of a document that the statements about the parser use: a
    chunk is a header line together with the lines up to the next
    header line. *)

Record chunk := {
  ch_group1 : str;
  ch_group2 : str;
  ch_lines : list str
}.

(** The lines in front of the first header line, and the chunks. *)
Fixpoint chunks_from (lines : list str) : list str * list chunk :=
  match lines with
  | [] => ([], [])
  | l :: ls =>
      let (pre, cs) := chunks_from ls in
      match header_match l with
      | Some (g1, g2) =>
          ([], {| ch_group1 := g1; ch_group2 := g2; ch_lines := l :: pre |}
               :: cs)
      | None => (l :: pre, cs)
      end
  end.

Definition chunks (text : str) : list chunk :=
  snd (chunks_from (split_lines text)).

Definition chunk_name (dtype : str) (c : chunk) : str :=
  dtype ++ py ": " ++ strip (ch_group2 c).

Definition chunk_item (dtype : str) (c : chunk) : str * section_data :=
  (chunk_name dtype c,
   section_record dtype (chunk_name dtype c) (ch_lines c)
     (length (ch_group1 c))).

Definition is_header (line : str) : bool :=
  match header_match line with
  | Some _ => true
  | None => false
  end.

(** The text from its first header line onward. *)
Definition from_first_header (text : str) : str :=
  join [LF] (dropwhile (fun l => negb (is_header l)) (split_lines text)).

(** The trimmed header texts of a document, in document order. *)
Definition header_titles (text : str) : list str :=
  flat_map (fun l => match header_match l with
                     | Some (_, g2) => [strip g2]
                     | None => []
                     end) (split_lines text).

(** A content between the whitespace that stood in front of it and
    behind it. *)
Definition padded (c : str) (pad : str * str) : str :=
  fst pad ++ c ++ snd pad.

(** [pad] is whitespace that [strip] removes from around [c]. *)
Definition is_trim (c : str) (pad : str * str) : Prop :=
  forallb isspace (fst pad) = true
  /\ forallb isspace (snd pad) = true
  /\ strip (padded c pad) = c.

(** Re-joining the contents of the sections of a document, in the
    order of the dictionary, gives the document from its first header
    line onward, once every content gets back the whitespace that
    [strip] took from it. *)
Definition rejoins (text dtype : str) : Prop :=
  let contents :=
    map (@content) (PyDict.values (_parse_sections text dtype)) in
  exists pads : list (str * str),
    Forall2 is_trim contents pads
    /\ join [LF] (map (fun cp => padded (fst cp) (snd cp))
                    (combine contents pads))
       = from_first_header text.


(** The number of characters of a text that are not whitespace. *)
Definition nonws (s : str) : nat :=
  length (filter (fun c => negb (isspace c)) s).

(** The weight of an item: the visible characters of its content. *)
Definition item_weight (item : str * section_data) : nat :=
  nonws (content (snd item)).

(** ** The searches, section by section *)

(** The case rule of both searches: the text as it is under
    [case_sensitive], its lower case otherwise. *)
Definition fold_case (case_sensitive : bool) (s : str) : str :=
  if case_sensitive then s else lower s.

(** The result that the title search appends for an item. *)
Definition name_result_of (item : str * section_data) : name_result :=
  {| nr_section_name := fst item;
     nr_doc_type := doc_type (snd item);
     nr_level := level (snd item);
     nr_word_count := word_count (snd item);
     nr_preview := preview_of (content (snd item)) |}.

Definition name_matches (keyword : str) (case_sensitive : bool)
  (item : str * section_data) : bool :=
  contains (fold_case case_sensitive keyword)
    (fold_case case_sensitive (fst item)).

Definition content_matches (keyword : str) (case_sensitive : bool)
  (item : str * section_data) : bool :=
  contains (fold_case case_sensitive keyword)
    (fold_case case_sensitive (content (snd item))).

(** Occurrences of the keyword in the whole content of a section. *)
Definition content_count (keyword : str) (case_sensitive : bool)
  (item : str * section_data) : nat :=
  count (fold_case case_sensitive (content (snd item)))
    (fold_case case_sensitive keyword).

(** The lines [i-1], [i] and [i+1] of [lines], as far as they exist. *)
Definition window (lines : list str) (i : nat) : list str :=
  flat_map (fun j => match nth_error lines j with
                     | Some l => [l]
                     | None => []
                     end)
    ((if i =? 0 then [] else [i - 1]) ++ [i; i + 1]).

(** The windows of all lines that hold the keyword, one after the
    other. *)
Definition context_windows (lines : list str) (keyword : str)
  (case_sensitive : bool) : list str :=
  flat_map (fun i =>
              if contains (fold_case case_sensitive keyword)
                   (fold_case case_sensitive (nth i lines []))
              then window lines i else [])
    (seq 0 (length lines)).

(** The result that the content search appends for an item. *)
Definition content_result_of (keyword : str) (case_sensitive : bool)
  (item : str * section_data) : content_result :=
  {| cr_section_name := fst item;
     cr_doc_type := doc_type (snd item);
     cr_level := level (snd item);
     cr_word_count := word_count (snd item);
     cr_matching_context :=
       join [LF]
         (firstn 10
            (context_windows (split_lines (content (snd item)))
               keyword case_sensitive));
     cr_match_count := content_count keyword case_sensitive item |}.

(** ** Occurrences that do not overlap *)

(** [packing sub s n]: [n] occurrences of [sub] can be marked in [s]
    without two of them sharing a character. *)
Inductive packing (sub : str) : str -> nat -> Prop :=
| packing_none : forall s, packing sub s 0
| packing_skip : forall c s n, packing sub s n -> packing sub (c :: s) n
| packing_take : forall s n, packing sub s n -> packing sub (sub ++ s) (S n).

(** [n] is the number of occurrences of [sub] in [s] that do not
    overlap: the largest number that can be marked, and for the empty
    [sub] the number of positions of [s]. *)
Definition occurrences (s sub : str) (n : nat) : Prop :=
  match sub with
  | [] => n = length s + 1
  | _ :: _ => packing sub s n /\ forall m, packing sub s m -> m <= n
  end.

(** ** Documents of the examples *)

(** ["# A\nhello world\n## B\nhello again\n"] *)
Definition doc_AB : str :=
  py "# A" ++ [LF] ++ py "hello world" ++ [LF]
  ++ py "## B" ++ [LF] ++ py "hello again" ++ [LF].

(** ["# A\nx\n# A\ny"]: the same header text twice. *)
Definition doc_AA : str :=
  py "# A" ++ [LF] ++ py "x" ++ [LF] ++ py "# A" ++ [LF] ++ py "y".

(** A header line of 250 characters: ["# aaa...a"]. *)
Definition doc_250 : str := py "# " ++ repeat "a"%char 248.

(** The only item of the dictionary of [doc_250]. *)
Definition item_250 (dtype : str) : str * section_data :=
  (dtype ++ py ": " ++ repeat "a"%char 248,
   section_record dtype (dtype ++ py ": " ++ repeat "a"%char 248) [doc_250] 1).

(** ["# A\nhello\nhello"]: two neighbouring lines that match. *)
Definition doc_hello2 : str :=
  py "# A" ++ [LF] ++ py "hello" ++ [LF] ++ py "hello".

(** ["# A\nhello\n## B\nhello hello\n# C\nhello"]: three sections,
    the second one deeper and with more matches than the others. *)
Definition doc_ABC : str :=
  py "# A" ++ [LF] ++ py "hello" ++ [LF]
  ++ py "## B" ++ [LF] ++ py "hello hello" ++ [LF]
  ++ py "# C" ++ [LF] ++ py "hello".

(** An index that holds the sections of one document. *)
Definition index_of (text dtype : str) : DocumentParser :=
  let parsed := _parse_sections text dtype in
  {| mcp_sections := parsed;
     sdk_sections := [];
     all_sections := PyDict.merge parsed [] |}.

(** The scenario of the document [doc_AB] parsed as ["Doc"], with the
    word count [wc] of both sections left open. *)
Definition scenario_AB (wc : nat) : Prop :=
  (exists a b,
     _parse_sections doc_AB (py "Doc") = [(py "Doc: A", a); (py "Doc: B", b)]
     /\ level a = 1
     /\ content a = py "# A" ++ [LF] ++ py "hello world"
     /\ word_count a = wc
     /\ level b = 2
     /\ content b = py "## B" ++ [LF] ++ py "hello again"
     /\ word_count b = wc)
  /\ map (fun r => (cr_section_name r, cr_match_count r))
       (search_by_content_text (index_of doc_AB (py "Doc")) (py "hello") false)
     = [(py "Doc: A", 1); (py "Doc: B", 1)].

(** ** The listing of the sections *)

(** The items of the list of [get_section_list]. *)
Record section_summary := {
  ss_section_name : str;
  ss_doc_type : str;
  ss_level : nat;
  ss_word_count : nat
}.

Definition get_section_list (self : DocumentParser) : list section_summary :=
  map (fun item =>
         let (name, data) := item : str * section_data in
         {| ss_section_name := name;
            ss_doc_type := doc_type data;
            ss_level := level data;
            ss_word_count := word_count data |})
    (all_sections self).

(** The elements of a list in the order in which they appear first;
    [seen] holds what came before. *)
Fixpoint first_occurrences (seen l : list str) : list str :=
  match l with
  | [] => []
  | x :: l' =>
      if in_dec str_dec x seen then first_occurrences seen l'
      else x :: first_occurrences (x :: seen) l'
  end.

(** The fields that a result of the title search shares with an item
    of the listing. *)
Definition summary_of_result (r : name_result) : section_summary :=
  {| ss_section_name := nr_section_name r;
     ss_doc_type := nr_doc_type r;
     ss_level := nr_level r;
     ss_word_count := nr_word_count r |}.

Definition summary_of_item (item : str * section_data) : section_summary :=
  {| ss_section_name := fst item;
     ss_doc_type := doc_type (snd item);
     ss_level := level (snd item);
     ss_word_count := word_count (snd item) |}.

(** ** The resources and tools

    The handlers read the module-level object [doc_parser], which is
    their first parameter here. *)

(** [str(n)] and [f"{n}"] for an integer that is not negative. *)
Definition str_of_nat (n : nat) : str :=
  py (NilZero.string_of_uint (Nat.to_uint n)).




(** The tool [get_section_details]; a section, being a dictionary
    that is not empty, is true, so that [if not section_data:] asks
    for [None]. *)
Definition get_section_details (doc_parser : DocumentParser)
  (section_name : str) : str :=
  let (section_data, doc_parser) :=
    get_section_content doc_parser section_name in
  match section_data with
  | None =>
      let available_sections :=
        firstn 10 (PyDict.keys (all_sections doc_parser)) in
      let response :=
        py "Section '" ++ section_name ++ py "' not found." ++ [LF; LF] in
      let response :=
        response ++ py "Available sections (first 10):" ++ [LF] in
      let response :=
        fold_left (fun response section =>
                     response ++ py "- " ++ section ++ [LF])
          available_sections response in
      response ++ [LF]
      ++ py "Use search_sections_by_name() to find specific sections."
  | Some data =>
      let response := py "# " ++ title data ++ [LF; LF] in
      let response := response ++ py "## Metadata" ++ [LF] in
      let response :=
        response ++ py "- **Document Type:** " ++ doc_type data ++ [LF] in
      let response :=
        response ++ py "- **Header Level:** H" ++ str_of_nat (level data)
        ++ [LF] in
      let response :=
        response ++ py "- **Word Count:** " ++ str_of_nat (word_count data)
        ++ [LF; LF] in
      let response := response ++ py "## Full Content" ++ [LF; LF] in
      response ++ content data
  end.

Definition core_keywords : list str :=
  [py "core concepts"; py "overview"; py "server"; py "resources";
   py "tools"; py "prompts"; py "what is mcp"].

(** The variables of the second loop of [get_core_concepts]; the set
    [seen_sections] is a list, only membership is asked of it. *)
Record concepts_state := {
  seen_sections : list str;
  cc_result : str
}.

(** The text that [get_core_concepts] adds for a concept. *)
Definition concept_block (concept : name_result) : str :=
  py "## " ++ nr_section_name concept ++ [LF]
  ++ py "**Source:** " ++ nr_doc_type concept ++ [LF; LF]
  ++ nr_preview concept ++ [LF; LF].

(** One round of [for concept in concepts]. *)
Definition concept_step (st : concepts_state) (concept : name_result)
  : concepts_state :=
  if in_dec str_dec (nr_section_name concept) (seen_sections st) then st
  else
    {| seen_sections := nr_section_name concept :: seen_sections st;
       cc_result := cc_result st ++ concept_block concept |}.

(** The list [concepts]: the first two results for every keyword. *)
Definition core_concepts_found (doc_parser : DocumentParser)
  : list name_result :=
  fold_left
    (fun concepts keyword =>
       let results := search_by_section_name doc_parser keyword false in
       concepts ++ firstn 2 results)
    core_keywords [].

Definition core_concepts_head : str :=
  py "# Core MCP Concepts" ++ [LF; LF]
  ++ py "This resource provides an overview of the fundamental concepts in the Model Context Protocol."
  ++ [LF; LF].

Definition get_core_concepts (doc_parser : DocumentParser) : str :=
  let concepts := core_concepts_found doc_parser in
  cc_result
    (fold_left concept_step concepts
       {| seen_sections := []; cc_result := core_concepts_head |}).

(** The concepts whose names were not seen before, in order. *)
Fixpoint distinct_concepts (seen : list str) (l : list name_result)
  : list name_result :=
  match l with
  | [] => []
  | c :: l' =>
      if in_dec str_dec (nr_section_name c) seen
      then distinct_concepts seen l'
      else c :: distinct_concepts (nr_section_name c :: seen) l'
  end.


(** [str(z)] and [f"{z}"] for an integer. *)
Definition str_of_int (z : Z) : str :=
  if (z <? 0)%Z then py "-" ++ str_of_nat (Z.abs_nat z)
  else str_of_nat (Z.to_nat z).

(** [l[:m]] for an integer [m]: a negative [m] counts from the end. *)
Definition slice_to_int (A : Type) (m : Z) (l : list A) : list A :=
  if (0 <=? m)%Z then firstn (Z.to_nat m) l
  else firstn (length l - Z.abs_nat m) l.

(** The text that [search_sections_by_name] adds for the [i]-th
    result. *)
Definition name_entry (i : nat) (result : name_result) : str :=
  py "## " ++ str_of_nat i ++ py ". " ++ nr_section_name result ++ [LF]
  ++ py "**Source:** " ++ nr_doc_type result ++ [LF]
  ++ py "**Level:** H" ++ str_of_nat (nr_level result) ++ [LF]
  ++ py "**Word Count:** " ++ str_of_nat (nr_word_count result) ++ [LF]
  ++ py "**Preview:** " ++ nr_preview result ++ [LF; LF].

(** The tool [search_sections_by_name]; [if not results:] asks for
    the empty list. *)
Definition search_sections_by_name (doc_parser : DocumentParser)
  (keyword : str) (case_sensitive : bool) (max_results : Z) : str :=
  let results := search_by_section_name doc_parser keyword case_sensitive in
  match results with
  | [] =>
      py "No sections found with '" ++ keyword
      ++ py "' in the section name."
  | _ :: _ =>
      let limited_results := slice_to_int max_results results in
      let response :=
        py "# Search Results for '" ++ keyword ++ py "' in Section Names"
        ++ [LF; LF] in
      let response :=
        response ++ py "Found " ++ str_of_nat (length results)
        ++ py " section(s) (showing "
        ++ str_of_nat (length limited_results) ++ py "):" ++ [LF; LF] in
      let response :=
        fold_left (fun response item =>
                     response ++ name_entry (fst item) (snd item))
          (combine (seq 1 (length limited_results)) limited_results)
          response in
      if (Z.of_nat (length results) >? max_results)%Z then
        response ++ py "... and "
        ++ str_of_int (Z.of_nat (length results) - max_results)
        ++ py " more results. Increase max_results to see more." ++ [LF]
      else response
  end.

(** A page of [search_sections_by_name]: [found] results were found,
    those of [shown] are written out with their numbers, and [more],
    if any, is the number that the last line gives for the rest. *)
Definition search_page (keyword : str) (found : nat)
  (shown : list name_result) (more : option nat) : str :=
  py "# Search Results for '" ++ keyword ++ py "' in Section Names"
  ++ [LF; LF]
  ++ py "Found " ++ str_of_nat found ++ py " section(s) (showing "
  ++ str_of_nat (length shown) ++ py "):" ++ [LF; LF]
  ++ concat (map (fun item => name_entry (fst item) (snd item))
               (combine (seq 1 (length shown)) shown))
  ++ match more with
     | Some k =>
         py "... and " ++ str_of_nat k
         ++ py " more results. Increase max_results to see more." ++ [LF]
     | None => []
     end.

(** * Properties *)

(** ** Strings *)

Lemma str_eqb_eq (a b : str) : str_eqb a b = true <-> a = b.
Proof.
  unfold str_eqb. destruct (str_dec a b); split; congruence.
Qed.

Lemma str_eqb_refl (a : str) : str_eqb a a = true.
Proof. now apply str_eqb_eq. Qed.

Lemma str_eqb_neq (a b : str) : str_eqb a b = false <-> a <> b.
Proof.
  unfold str_eqb. destruct (str_dec a b); split; congruence.
Qed.

Lemma split_lines_not_nil (s : str) : split_lines s <> [].
Proof.
  destruct s as [|c s]; simpl; [discriminate|].
  destruct (Ascii.eqb c LF); [discriminate|].
  destruct (split_lines s); discriminate.
Qed.

(** Joining the lines of a text gives the text back. *)
Lemma join_split_lines (s : str) : join [LF] (split_lines s) = s.
Proof.
  induction s as [|c s IH]; simpl; [reflexivity|].
  destruct (Ascii.eqb_spec c LF) as [->|Hc].
  - pose proof (split_lines_not_nil s) as Hne.
    destruct (split_lines s) as [|l ls]; [congruence|].
    simpl. simpl in IH. now rewrite IH.
  - pose proof (split_lines_not_nil s) as Hne.
    destruct (split_lines s) as [|l ls]; [congruence|].
    simpl in *. destruct ls; simpl in *; now rewrite <- IH.
Qed.

(** No piece of [split] holds a line feed. *)
Lemma split_lines_no_LF (s : str) :
  Forall (fun l => ~ In LF l) (split_lines s).
Proof.
  induction s as [|c s IH]; simpl.
  - constructor; [intros []|constructor].
  - destruct (Ascii.eqb_spec c LF) as [->|Hc].
    + constructor; [intros []|exact IH].
    + destruct (split_lines s) as [|l ls].
      * constructor; [|constructor]. intros [H|[]]. congruence.
      * inversion IH; subst. constructor; [|assumption].
        intros [H|H]; [congruence|contradiction].
Qed.

Lemma contains_nil (s : str) : contains [] s = true.
Proof. destruct s; reflexivity. Qed.

Lemma startswith_app (p s : str) :
  startswith p s = true <-> exists t, s = p ++ t.
Proof.
  revert s. induction p as [|a p IH]; intros s; simpl.
  - split; [intros _; now exists s|reflexivity].
  - destruct s as [|b s]; simpl.
    + split; [discriminate|intros [t Ht]; discriminate].
    + rewrite andb_true_iff, IH. split.
      * intros [Hab [t ->]]. apply Ascii.eqb_eq in Hab. subst. now exists t.
      * intros [t Ht]. injection Ht as -> ->. split.
        -- apply Ascii.eqb_refl.
        -- now exists t.
Qed.

(** [sub in s] says that [s] holds [sub] somewhere. *)
Lemma contains_spec (sub s : str) :
  contains sub s = true <-> exists pre post, s = pre ++ sub ++ post.
Proof.
  induction s as [|c s IH]; simpl.
  - rewrite orb_false_r. rewrite startswith_app. split.
    + intros [t Ht]. now exists [], t.
    + intros [pre [post H]]. destruct pre; simpl in H.
      * now exists post.
      * discriminate.
  - rewrite orb_true_iff, startswith_app, IH. split.
    + intros [[t Ht]|[pre [post H]]].
      * now exists [], t.
      * exists (c :: pre), post. simpl. now rewrite H.
    + intros [pre [post H]]. destruct pre as [|c' pre]; simpl in H.
      * left. now exists post.
      * right. injection H as _ H. now exists pre, post.
Qed.

Lemma dropwhile_takewhile (A : Type) (p : A -> bool) (l : list A) :
  takewhile p l ++ dropwhile p l = l.
Proof.
  induction l as [|x l IH]; simpl; [reflexivity|].
  destruct (p x); simpl; [now rewrite IH|reflexivity].
Qed.

Lemma takewhile_all (A : Type) (p : A -> bool) (l : list A) :
  forallb p (takewhile p l) = true.
Proof.
  induction l as [|x l IH]; simpl; [reflexivity|].
  destruct (p x) eqn:E; simpl; [now rewrite E|reflexivity].
Qed.

Lemma dropwhile_head (A : Type) (p : A -> bool) (x : A) (l : list A) :
  p x = false -> dropwhile p (x :: l) = x :: l.
Proof. intros H. simpl. now rewrite H. Qed.

(** What [rstrip] removes is whitespace. *)
Lemma rstrip_split (s : str) :
  exists ws, s = rstrip s ++ ws /\ forallb isspace ws = true.
Proof.
  exists (rev (takewhile isspace (rev s))). split.
  - unfold rstrip. rewrite <- rev_app_distr, dropwhile_takewhile.
    now rewrite rev_involutive.
  - rewrite forallb_forall. intros x Hx. apply in_rev in Hx.
    pose proof (takewhile_all isspace (rev s)) as H.
    rewrite forallb_forall in H. auto.
Qed.

(** A text that starts with a character other than whitespace loses
    only whitespace at its end when stripped; putting that whitespace
    back and stripping again changes nothing. *)
Lemma strip_split (c : ascii) (s : str) :
  isspace c = false ->
  exists ws, c :: s = strip (c :: s) ++ ws
             /\ forallb isspace ws = true
             /\ strip (strip (c :: s) ++ ws) = strip (c :: s).
Proof.
  intros Hc.
  assert (Hl : lstrip (c :: s) = c :: s) by (apply dropwhile_head; exact Hc).
  unfold strip. rewrite Hl.
  destruct (rstrip_split (c :: s)) as [ws [H1 H2]].
  exists ws. repeat split; try assumption.
  rewrite <- H1. now rewrite Hl.
Qed.

(** ** Counting occurrences *)

Section CountFacts.

Variable sub : str.

Lemma count_scan_skipn (s : str) : forall k,
  count_scan sub k s = count_scan sub 0 (skipn k s).
Proof.
  induction s as [|c s IH]; intros [|k]; try reflexivity.
  simpl. apply IH.
Qed.

Lemma count_scan_cons (c : ascii) (s : str) :
  count_scan sub 0 (c :: s) =
  if startswith sub (c :: s)
  then S (count_scan sub 0 (skipn (length sub - 1) s))
  else count_scan sub 0 s.
Proof.
  change (count_scan sub 0 (c :: s))
    with (if startswith sub (c :: s)
          then S (count_scan sub (length sub - 1) s)
          else count_scan sub 0 s).
  now rewrite count_scan_skipn.
Qed.

(** A shorter rest holds no more occurrences, and at most one is lost
    with the first characters, as many as [sub] has. *)
Lemma count_scan_bounds (n : nat) : forall s,
  length s <= n ->
  (forall j, count_scan sub 0 (skipn j s) <= count_scan sub 0 s)
  /\ (forall j, j <= length sub ->
        count_scan sub 0 s <= S (count_scan sub 0 (skipn j s))).
Proof.
  induction n as [|n IH]; intros s Hs.
  - destruct s; [|simpl in Hs; lia].
    split; intros j; rewrite skipn_nil; simpl; lia.
  - destruct s as [|c s].
    + split; intros j; rewrite skipn_nil; simpl; lia.
    + simpl in Hs. assert (Hs' : length s <= n) by lia.
      destruct (IH s Hs') as [IHA IHB].
      assert (Hc : count_scan sub 0 s <= count_scan sub 0 (c :: s)).
      { rewrite count_scan_cons. destruct (startswith sub (c :: s)).
        - apply IHB. lia.
        - lia. }
      split.
      * intros [|j]; [simpl skipn; lia|].
        simpl skipn. specialize (IHA j). lia.
      * intros [|j] Hj; [simpl skipn; lia|].
        simpl skipn. rewrite count_scan_cons.
        destruct (startswith sub (c :: s)).
        -- replace (length sub - 1) with ((length sub - 1 - j) + j) by lia.
           rewrite <- skipn_skipn.
           assert (Hl : length (skipn j s) <= n)
             by (rewrite length_skipn; lia).
           destruct (IH _ Hl) as [IHA' _].
           specialize (IHA' (length sub - 1 - j)). lia.
        -- apply IHB. lia.
Qed.

Lemma startswith_self (s : str) : startswith sub (sub ++ s) = true.
Proof. apply startswith_app. now exists s. Qed.

Hypothesis sub_not_nil : sub <> [].

Lemma sub_length : length sub <> 0.
Proof.
  intros H. apply length_zero_iff_nil in H. contradiction.
Qed.

Lemma sub_cons : exists c sub', sub = c :: sub'.
Proof.
  pose proof sub_length as H. revert H. generalize sub.
  intros [|c t] H; [simpl in H; lia|eauto].
Qed.

(** The scan takes an occurrence at the start. *)
Lemma count_scan_take (s : str) :
  count_scan sub 0 (sub ++ s) = S (count_scan sub 0 s).
Proof.
  pose proof (startswith_self s) as Hst.
  destruct sub_cons as [c [sub' E]].
  assert (Hs : sub ++ s = c :: (sub' ++ s)) by (rewrite E; reflexivity).
  rewrite Hs in *. rewrite count_scan_cons, Hst.
  replace (length sub - 1) with (length sub')
    by (rewrite E; simpl; lia).
  rewrite skipn_app, Nat.sub_diag, skipn_all. reflexivity.
Qed.

(** No marking has more occurrences than the scan finds. *)
Lemma packing_le (s : str) (n : nat) :
  packing sub s n -> n <= count_scan sub 0 s.
Proof.
  induction 1 as [s|c s n _ IH|s n _ IH].
  - lia.
  - destruct (@count_scan_bounds (length (c :: s)) (c :: s) (le_n _))
      as [HA _].
    specialize (HA 1). simpl skipn in HA. lia.
  - rewrite count_scan_take. lia.
Qed.

(** The occurrences that the scan finds are a marking. *)
Lemma packing_count_scan (n : nat) : forall s,
  length s <= n -> packing sub s (count_scan sub 0 s).
Proof.
  induction n as [|n IH]; intros s Hs.
  - destruct s; [apply packing_none|simpl in Hs; lia].
  - destruct s as [|c s]; [apply packing_none|].
    simpl in Hs. destruct (startswith sub (c :: s)) eqn:E.
    + apply startswith_app in E as [t Ht]. rewrite Ht.
      rewrite count_scan_take. apply packing_take. apply IH.
      assert (Hl : length (c :: s) = length sub + length t)
        by (rewrite Ht; apply length_app).
      simpl in Hl. pose proof sub_length. lia.
    + rewrite count_scan_cons, E. apply packing_skip. apply IH. lia.
Qed.

End CountFacts.

(** [str.count] gives the number of occurrences that do not overlap. *)
Lemma count_occurrences (s sub : str) : occurrences s sub (count s sub).
Proof.
  unfold occurrences, count. destruct sub as [|c sub]; [reflexivity|].
  split.
  - apply packing_count_scan with (n := length s); [discriminate|lia].
  - intros m. apply packing_le. discriminate.
Qed.

(** [str.count] finds something exactly where [in] does. *)
Lemma count_positive (s sub : str) :
  contains sub s = true -> 1 <= count s sub.
Proof.
  intros H. destruct sub as [|c sub]; [simpl; lia|].
  apply contains_spec in H as [pre [post ->]].
  change (count (pre ++ (c :: sub) ++ post) (c :: sub))
    with (count_scan (c :: sub) 0 (pre ++ (c :: sub) ++ post)).
  apply packing_le; [discriminate|].
  induction pre as [|x pre IH].
  - apply (@packing_take (c :: sub) post 0). apply packing_none.
  - apply (@packing_skip (c :: sub) x). exact IH.
Qed.

(** ** Dictionaries *)

Section DictFacts.

Variable V : Type.
Implicit Types (d a b : PyDict.dict V) (k : str) (v : V).

Lemma get_set_eq d k v : PyDict.get (PyDict.set d k v) k = Some v.
Proof.
  induction d as [|[k' v'] d IH]; simpl.
  - now rewrite str_eqb_refl.
  - destruct (str_eqb k' k) eqn:E; simpl; rewrite E; auto.
Qed.

Lemma get_set_ne d k k' v :
  k <> k' -> PyDict.get (PyDict.set d k v) k' = PyDict.get d k'.
Proof.
  intros Hne. induction d as [|[k0 v0] d IH]; simpl.
  - apply str_eqb_neq in Hne. now rewrite Hne.
  - destruct (str_eqb k0 k) eqn:E; simpl.
    + apply str_eqb_eq in E. subst k0.
      apply str_eqb_neq in Hne. now rewrite Hne.
    + now rewrite IH.
Qed.

Lemma get_app d1 d2 k :
  PyDict.get (d1 ++ d2) k =
  match PyDict.get d1 k with
  | Some v => Some v
  | None => PyDict.get d2 k
  end.
Proof.
  induction d1 as [|[k' v'] d1 IH]; simpl; [reflexivity|].
  now destruct (str_eqb k' k).
Qed.

Lemma get_Some_In d k v : PyDict.get d k = Some v -> In (k, v) d.
Proof.
  induction d as [|[k' v'] d IH]; simpl; [discriminate|].
  destruct (str_eqb k' k) eqn:E.
  - apply str_eqb_eq in E. subst. intros [= ->]. now left.
  - auto.
Qed.

Lemma get_None d k : PyDict.get d k = None <-> ~ In k (PyDict.keys d).
Proof.
  induction d as [|[k' v'] d IH]; simpl.
  - tauto.
  - destruct (str_eqb k' k) eqn:E.
    + apply str_eqb_eq in E. split; [discriminate|tauto].
    + apply str_eqb_neq in E. tauto.
Qed.

Lemma In_get d k v :
  NoDup (PyDict.keys d) -> In (k, v) d -> PyDict.get d k = Some v.
Proof.
  induction d as [|[k' v'] d IH]; simpl; [tauto|].
  intros Hnd [H|H].
  - injection H as -> ->. now rewrite str_eqb_refl.
  - inversion Hnd as [|? ? Hk Hnd']; subst.
    destruct (str_eqb k' k) eqn:E.
    + apply str_eqb_eq in E. subst. exfalso. apply Hk.
      change k with (fst (k, v)). now apply in_map.
    + auto.
Qed.

Lemma In_keys d k : In k (PyDict.keys d) <-> exists v, In (k, v) d.
Proof.
  unfold PyDict.keys. rewrite in_map_iff. split.
  - intros [[k' v] [<- H]]. now exists v.
  - intros [v H]. now exists (k, v).
Qed.

(** Assignment to a new key appends. *)
Lemma set_absent d k v :
  ~ In k (PyDict.keys d) -> PyDict.set d k v = d ++ [(k, v)].
Proof.
  induction d as [|[k' v'] d IH]; simpl; [reflexivity|].
  intros H. destruct (str_eqb k' k) eqn:E.
  - apply str_eqb_eq in E. tauto.
  - rewrite IH; tauto.
Qed.

(** Assignment to a key that is present keeps the keys as they are. *)
Lemma keys_set_present d k v :
  In k (PyDict.keys d) -> PyDict.keys (PyDict.set d k v) = PyDict.keys d.
Proof.
  induction d as [|[k' v'] d IH]; simpl; [tauto|].
  intros H. destruct (str_eqb k' k) eqn:E; simpl; [reflexivity|].
  apply str_eqb_neq in E. f_equal. apply IH. tauto.
Qed.

Lemma keys_set d k v :
  PyDict.keys (PyDict.set d k v) =
  if in_dec str_dec k (PyDict.keys d)
  then PyDict.keys d else PyDict.keys d ++ [k].
Proof.
  destruct (in_dec str_dec k (PyDict.keys d)) as [H|H].
  - now apply keys_set_present.
  - rewrite set_absent by assumption. unfold PyDict.keys.
    now rewrite map_app.
Qed.

Lemma NoDup_keys_set d k v :
  NoDup (PyDict.keys d) -> NoDup (PyDict.keys (PyDict.set d k v)).
Proof.
  intros H. rewrite keys_set. destruct (in_dec str_dec k (PyDict.keys d)) as [Hi|Hi].
  - assumption.
  - apply NoDup_app; [assumption|repeat constructor; intros []|].
    intros x Hx [<-|[]]. contradiction.
Qed.

Lemma in_set d k v k' v' :
  In (k', v') (PyDict.set d k v) -> (k' = k /\ v' = v) \/ In (k', v') d.
Proof.
  induction d as [|[k0 v0] d IH]; simpl.
  - intros [[= <- <-]|[]]. now left.
  - destruct (str_eqb k0 k) eqn:E; simpl.
    + apply str_eqb_eq in E. subst.
      intros [[= <- <-]|H]; [now left|now right; right].
    + intros [H|H]; [now right; left|]. destruct (IH H); auto.
Qed.

Lemma merge_cons a kv b :
  PyDict.merge a (kv :: b) = PyDict.merge (PyDict.set a (fst kv) (snd kv)) b.
Proof. reflexivity. Qed.

(** In [{**a, **b}] the last item of [b] under a key wins, and [a] is
    consulted for the keys that [b] does not have. *)
Lemma get_merge_last a b k :
  PyDict.get (PyDict.merge a b) k =
  match PyDict.get (rev b) k with
  | Some v => Some v
  | None => PyDict.get a k
  end.
Proof.
  revert a. induction b as [|[k0 v0] b IH]; intros a; [reflexivity|].
  rewrite merge_cons, IH. simpl. rewrite get_app.
  destruct (PyDict.get (rev b) k); [reflexivity|]. simpl.
  destruct (str_eqb k0 k) eqn:E.
  - apply str_eqb_eq in E. subst. apply get_set_eq.
  - apply str_eqb_neq in E. now apply get_set_ne.
Qed.

Lemma keys_rev d : PyDict.keys (rev d) = rev (PyDict.keys d).
Proof. unfold PyDict.keys. now rewrite map_rev. Qed.

Lemma get_rev d k :
  NoDup (PyDict.keys d) -> PyDict.get (rev d) k = PyDict.get d k.
Proof.
  intros Hnd. destruct (PyDict.get d k) as [v|] eqn:E.
  - apply In_get.
    + rewrite keys_rev. now apply NoDup_rev.
    + apply in_rev. rewrite rev_involutive. now apply get_Some_In.
  - apply get_None. rewrite keys_rev. intros H. apply in_rev in H.
    now apply get_None in E.
Qed.

Lemma get_merge a b k :
  NoDup (PyDict.keys b) ->
  PyDict.get (PyDict.merge a b) k =
  match PyDict.get b k with
  | Some v => Some v
  | None => PyDict.get a k
  end.
Proof. intros H. now rewrite get_merge_last, get_rev. Qed.

Lemma NoDup_keys_merge a b :
  NoDup (PyDict.keys a) -> NoDup (PyDict.keys (PyDict.merge a b)).
Proof.
  revert a. induction b as [|kv b IH]; intros a H; [exact H|].
  rewrite merge_cons. apply IH. now apply NoDup_keys_set.
Qed.

Lemma in_merge a b k v :
  In (k, v) (PyDict.merge a b) -> In (k, v) a \/ In (k, v) b.
Proof.
  revert a. induction b as [|[k0 v0] b IH]; intros a H; [now left|].
  rewrite merge_cons in H. destruct (IH _ H) as [H'|H'].
  - simpl in H'. apply in_set in H'. destruct H' as [[-> ->]|H'].
    + right. now left.
    + now left.
  - right. now right.
Qed.

(** Items with fresh, pairwise distinct keys are appended in order. *)
Lemma merge_disjoint a b :
  NoDup (PyDict.keys b) ->
  (forall k, In k (PyDict.keys b) -> ~ In k (PyDict.keys a)) ->
  PyDict.merge a b = a ++ b.
Proof.
  revert a. induction b as [|[k0 v0] b IH]; intros a Hnd Hdis.
  - simpl. now rewrite app_nil_r.
  - rewrite merge_cons. simpl. simpl in Hnd. inversion Hnd; subst.
    rewrite set_absent by (apply Hdis; now left).
    rewrite IH; [now rewrite <- app_assoc| assumption |].
    intros k Hk. unfold PyDict.keys. rewrite map_app, in_app_iff. simpl.
    intros [H|[H|[]]].
    + apply (Hdis k); [now right|exact H].
    + subst. contradiction.
Qed.

Lemma keys_merge_in a b k :
  In k (PyDict.keys (PyDict.merge a b)) <->
  In k (PyDict.keys a) \/ In k (PyDict.keys b).
Proof.
  revert a. induction b as [|[k0 v0] b IH]; intros a.
  - simpl. tauto.
  - rewrite merge_cons, IH. simpl. rewrite keys_set.
    destruct (in_dec str_dec k0 (PyDict.keys a)) as [H|H].
    + split; [tauto|]. intros [H'|[<-|H']]; tauto.
    + unfold PyDict.keys at 1. fold (PyDict.keys a).
      rewrite in_app_iff. simpl. tauto.
Qed.

End DictFacts.

(** ** The stable sort *)

Section SortedFacts.

Variable A : Type.
Variable key : A -> nat.
Variable reverse : bool.

Lemma goes_first_in_order x y :
  goes_first key reverse x y = true <-> in_order key reverse x y.
Proof.
  unfold goes_first, in_order. destruct reverse; apply Nat.leb_le.
Qed.

Lemma goes_first_false x y :
  goes_first key reverse x y = false ->
  in_order key reverse y x /\ key x <> key y.
Proof.
  unfold goes_first, in_order.
  destruct reverse; intros H; apply Nat.leb_gt in H; lia.
Qed.

Lemma in_order_trans x y z :
  in_order key reverse x y -> in_order key reverse y z ->
  in_order key reverse x z.
Proof. unfold in_order. destruct reverse; lia. Qed.

Lemma insert_sorted_perm x l :
  Permutation (insert_sorted key reverse x l) (x :: l).
Proof.
  induction l as [|y l IH]; simpl; [reflexivity|].
  destruct (goes_first key reverse x y); [reflexivity|].
  rewrite IH. apply perm_swap.
Qed.

Lemma sorted_perm l : Permutation (sorted key reverse l) l.
Proof.
  induction l as [|x l IH]; simpl; [reflexivity|].
  rewrite insert_sorted_perm. now constructor.
Qed.

Lemma sorted_In l x : In x (sorted key reverse l) <-> In x l.
Proof.
  split; apply Permutation_in; [|symmetry]; apply sorted_perm.
Qed.

Lemma sorted_length l : length (sorted key reverse l) = length l.
Proof. apply Permutation_length, sorted_perm. Qed.

Lemma insert_sorted_ordered x l :
  StronglySorted (in_order key reverse) l ->
  StronglySorted (in_order key reverse) (insert_sorted key reverse x l).
Proof.
  induction 1 as [|y l Hs IH Hy]; simpl.
  - repeat constructor.
  - destruct (goes_first key reverse x y) eqn:E.
    + apply goes_first_in_order in E. constructor.
      * now constructor.
      * constructor; [assumption|].
        rewrite Forall_forall in *. intros z Hz.
        eapply in_order_trans; eauto.
    + apply goes_first_false in E as [E _]. constructor; [assumption|].
      rewrite Forall_forall in *. intros z Hz.
      apply (Permutation_in _ (insert_sorted_perm x l)) in Hz.
      destruct Hz as [<-|Hz]; auto.
Qed.

Lemma sorted_ordered l :
  StronglySorted (in_order key reverse) (sorted key reverse l).
Proof.
  induction l as [|x l IH]; simpl; [constructor|].
  now apply insert_sorted_ordered.
Qed.

(** Stability: the elements under one key keep their order. *)
Lemma insert_sorted_stable c x l :
  filter (fun y => key y =? c) (insert_sorted key reverse x l) =
  filter (fun y => key y =? c) (x :: l).
Proof.
  induction l as [|y l IH]; [reflexivity|].
  simpl insert_sorted. destruct (goes_first key reverse x y) eqn:E.
  - reflexivity.
  - apply goes_first_false in E as [_ E].
    simpl. simpl in IH. rewrite IH.
    destruct (Nat.eqb_spec (key y) c) as [Hy|Hy];
      destruct (Nat.eqb_spec (key x) c) as [Hx|Hx]; congruence.
Qed.

Lemma sorted_stable c l :
  filter (fun y => key y =? c) (sorted key reverse l) =
  filter (fun y => key y =? c) l.
Proof.
  induction l as [|x l IH]; [reflexivity|].
  simpl sorted. rewrite insert_sorted_stable. simpl. now rewrite IH.
Qed.

(** Two places of a sorted list, in index form. *)
Lemma StronglySorted_nth (R : A -> A -> Prop) l i j d :
  StronglySorted R l -> i < j -> j < length l ->
  R (nth i l d) (nth j l d).
Proof.
  intros Hs. revert i j. induction Hs as [|x l Hs IH Hx]; intros i j Hij Hj.
  - simpl in Hj. lia.
  - destruct j as [|j]; [lia|]. simpl in Hj. destruct i as [|i]; simpl.
    + rewrite Forall_forall in Hx. apply Hx, nth_In. lia.
    + apply IH; lia.
Qed.

End SortedFacts.

(** ** The parser and the chunks of its input *)

Section ParserFacts.

Variable dtype : str.

Lemma qualified_not_nil (t : str) : dtype ++ py ": " ++ t <> [].
Proof. destruct dtype; discriminate. Qed.

Lemma truthy_Some (name : str) : name <> [] -> truthy (Some name) = true.
Proof. destruct name; [congruence|reflexivity]. Qed.

Lemma save_section_open st name :
  current_section st = Some name -> name <> [] ->
  save_section dtype st =
  PyDict.set (sections st) name
    (section_record dtype name (current_content st) (current_level st)).
Proof.
  intros H Hne. unfold save_section. rewrite H.
  now rewrite truthy_Some.
Qed.

(** The loop from a state with an open section. *)
Lemma parse_open lines : forall st name,
  current_section st = Some name -> name <> [] ->
  save_section dtype (fold_left (parse_line dtype) lines st) =
  PyDict.merge
    (PyDict.set (sections st) name
       (section_record dtype name
          (current_content st ++ fst (chunks_from lines)) (current_level st)))
    (map (chunk_item dtype) (snd (chunks_from lines))).
Proof.
  induction lines as [|l ls IH]; intros st name Hcur Hne.
  - simpl. rewrite app_nil_r. now apply save_section_open.
  - simpl fold_left. simpl chunks_from.
    destruct (chunks_from ls) as [pre cs] eqn:Ecs.
    unfold parse_line at 2.
    destruct (header_match l) as [[g1 g2]|] eqn:Eh.
    + erewrite IH; [|reflexivity|apply qualified_not_nil].
      simpl. rewrite app_nil_r.
      rewrite (save_section_open st Hcur Hne). reflexivity.
    + rewrite Hcur, (truthy_Some Hne).
      erewrite IH; [|reflexivity|exact Hne].
      simpl. now rewrite <- app_assoc.
Qed.

(** The loop from a state without an open section. *)
Lemma parse_closed lines : forall st,
  current_section st = None ->
  save_section dtype (fold_left (parse_line dtype) lines st) =
  PyDict.merge (sections st) (map (chunk_item dtype) (snd (chunks_from lines))).
Proof.
  induction lines as [|l ls IH]; intros st Hcur.
  - simpl. unfold save_section. now rewrite Hcur.
  - simpl fold_left. simpl chunks_from.
    destruct (chunks_from ls) as [pre cs] eqn:Ecs.
    unfold parse_line at 2.
    destruct (header_match l) as [[g1 g2]|] eqn:Eh.
    + erewrite parse_open; [|reflexivity|apply qualified_not_nil].
      rewrite Ecs. simpl. unfold save_section. rewrite Hcur. reflexivity.
    + rewrite Hcur. simpl. now rewrite IH by assumption.
Qed.

(** The parser inserts the chunks of its input one after the other
    into an empty dictionary. *)
Lemma parse_sections_chunks (text : str) :
  _parse_sections text dtype =
  PyDict.merge [] (map (chunk_item dtype) (chunks text)).
Proof.
  unfold _parse_sections, chunks. now rewrite parse_closed.
Qed.

Lemma parse_sections_NoDup (text : str) :
  NoDup (PyDict.keys (_parse_sections text dtype)).
Proof.
  rewrite parse_sections_chunks. apply NoDup_keys_merge. constructor.
Qed.

End ParserFacts.

(** ** Chunks *)

Lemma header_match_hash (l g1 g2 : str) :
  header_match l = Some (g1, g2) ->
  (exists t, l = HASH :: t) /\ 1 <= length g1 <= 6.
Proof.
  unfold header_match.
  assert (Hlen : forall n s, length (take_hashes n s) <= n).
  { induction n as [|n IH]; intros [|c s]; simpl; try lia.
    destruct (Ascii.eqb c HASH); simpl; [specialize (IH s)|]; lia. }
  destruct (take_hashes 6 l) as [|h hs] eqn:E; [discriminate|].
  intros H.
  assert (Hg : g1 = h :: hs).
  { destruct (takewhile isspace _) as [|c sp]; [discriminate|].
    destruct (dropwhile isspace _); [destruct sp; [discriminate|]|];
      now injection H as <- _. }
  subst g1. split.
  - destruct l as [|c t]; [discriminate|]. simpl in E.
    destruct (Ascii.eqb_spec c HASH); [|discriminate]. subst. now exists t.
  - pose proof (Hlen 6 l) as Hl. rewrite E in Hl. simpl in *. lia.
Qed.

Lemma chunks_from_lines (lines : list str) :
  fst (chunks_from lines) ++ concat (map ch_lines (snd (chunks_from lines)))
  = lines.
Proof.
  induction lines as [|l ls IH]; [reflexivity|]. simpl.
  destruct (chunks_from ls) as [pre cs]. simpl in IH.
  destruct (header_match l) as [[g1 g2]|]; simpl; now rewrite IH.
Qed.

(** The lines of the chunks are the lines from the first header on. *)
Lemma chunks_from_dropwhile (lines : list str) :
  concat (map ch_lines (snd (chunks_from lines)))
  = dropwhile (fun l => negb (is_header l)) lines.
Proof.
  induction lines as [|l ls IH]; [reflexivity|]. simpl.
  pose proof (chunks_from_lines ls) as Hl.
  destruct (chunks_from ls) as [pre cs]. simpl in *. unfold is_header.
  destruct (header_match l) as [[g1 g2]|]; simpl; [now rewrite Hl|exact IH].
Qed.

(** Every chunk starts with the header line whose groups it records. *)
Lemma chunks_from_wf (lines : list str) :
  Forall (fun c => exists h body,
            ch_lines c = h :: body
            /\ header_match h = Some (ch_group1 c, ch_group2 c)
            /\ In h lines)
    (snd (chunks_from lines)).
Proof.
  induction lines as [|l ls IH]; [constructor|]. simpl.
  destruct (chunks_from ls) as [pre cs]. simpl in IH.
  assert (IH' : Forall (fun c => exists h body,
            ch_lines c = h :: body
            /\ header_match h = Some (ch_group1 c, ch_group2 c)
            /\ In h (l :: ls)) cs).
  { eapply Forall_impl; [|exact IH]. intros c [h [body [H1 [H2 H3]]]].
    exists h, body. repeat split; auto. now right. }
  destruct (header_match l) as [[g1 g2]|] eqn:E; simpl; [|exact IH'].
  constructor; [|exact IH'].
  exists l, pre. simpl. repeat split; auto.
Qed.

Lemma chunks_titles (text : str) :
  map (fun c => strip (ch_group2 c)) (chunks text) = header_titles text.
Proof.
  unfold chunks, header_titles.
  induction (split_lines text) as [|l ls IH]; [reflexivity|]. simpl.
  destruct (chunks_from ls) as [pre cs]. simpl in IH.
  destruct (header_match l) as [[g1 g2]|]; simpl; now rewrite IH.
Qed.

Lemma keys_chunk_items (dtype : str) (cs : list chunk) :
  PyDict.keys (map (chunk_item dtype) cs) = map (chunk_name dtype) cs.
Proof. unfold PyDict.keys. rewrite map_map. reflexivity. Qed.

(** With pairwise distinct header texts no assignment of the parser
    hits a key that is present: the dictionary is the list of chunks. *)
Lemma parse_sections_distinct (text dtype : str) :
  NoDup (header_titles text) ->
  _parse_sections text dtype = map (chunk_item dtype) (chunks text).
Proof.
  intros Hnd. rewrite parse_sections_chunks.
  rewrite merge_disjoint; [reflexivity| |intros k _ []].
  rewrite keys_chunk_items.
  replace (map (chunk_name dtype) (chunks text))
    with (map (fun t => dtype ++ py ": " ++ t) (header_titles text)).
  - apply Injective_map_NoDup; [|exact Hnd].
    intros x y H. apply app_inv_head in H. now apply app_inv_head in H.
  - rewrite <- chunks_titles, map_map. reflexivity.
Qed.

Lemma join_cons (sep x : str) (rest : list str) :
  rest <> [] -> join sep (x :: rest) = x ++ sep ++ join sep rest.
Proof. destruct rest; [congruence|reflexivity]. Qed.

Lemma join_app (sep : str) (l1 l2 : list str) :
  l1 <> [] -> l2 <> [] ->
  join sep (l1 ++ l2) = join sep l1 ++ sep ++ join sep l2.
Proof.
  induction l1 as [|x l1 IH]; intros H1 H2; [congruence|].
  destruct l1 as [|y l1].
  - simpl app. now rewrite join_cons.
  - change ((x :: y :: l1) ++ l2) with (x :: ((y :: l1) ++ l2)).
    rewrite join_cons by discriminate. rewrite IH by (discriminate || assumption).
    rewrite (@join_cons sep x (y :: l1)) by discriminate.
    now rewrite <- !app_assoc.
Qed.

(** Joining groups that were joined one by one is joining all their
    lines, as long as no group is empty. *)
Lemma join_concat (sep : str) (groups : list (list str)) :
  Forall (fun g => g <> []) groups ->
  join sep (map (join sep) groups) = join sep (concat groups).
Proof.
  induction 1 as [|g groups Hg Hgs IH]; [reflexivity|].
  destruct groups as [|g' groups].
  - simpl. now rewrite app_nil_r.
  - change (map (join sep) (g :: g' :: groups))
      with (join sep g :: map (join sep) (g' :: groups)).
    rewrite join_cons by discriminate. rewrite IH.
    change (concat (g :: g' :: groups)) with (g ++ concat (g' :: groups)).
    rewrite join_app; [reflexivity|assumption|].
    inversion Hgs; subst. simpl. destruct g'; [congruence|discriminate].
Qed.

(** The text of a chunk starts with a hash. *)
Lemma chunk_text_hash (c : chunk) (lines : list str) :
  In c (snd (chunks_from lines)) ->
  exists t, join [LF] (ch_lines c) = HASH :: t.
Proof.
  intros Hin. pose proof (chunks_from_wf lines) as Hwf.
  rewrite Forall_forall in Hwf.
  destruct (Hwf c Hin) as [h [body [H1 [H2 _]]]].
  apply header_match_hash in H2 as [[t ->] _]. rewrite H1.
  destruct body as [|b body]; simpl; eauto.
Qed.

(** The whitespace that [strip] removed from the chunks. *)
Lemma chunks_trimmed (cs : list chunk) :
  (forall c, In c cs -> exists t, join [LF] (ch_lines c) = HASH :: t) ->
  exists pads : list (str * str),
    Forall2 is_trim (map (fun c => strip (join [LF] (ch_lines c))) cs) pads
    /\ map (fun cp => padded (fst cp) (snd cp))
         (combine (map (fun c => strip (join [LF] (ch_lines c))) cs) pads)
       = map (fun c => join [LF] (ch_lines c)) cs.
Proof.
  induction cs as [|c cs IH]; intros H.
  - exists []. split; [constructor|reflexivity].
  - destruct IH as [pads [HF Hz]]; [intros c' Hc'; apply H; now right|].
    destruct (H c (or_introl eq_refl)) as [t Ht].
    destruct (@strip_split HASH t eq_refl) as [ws [H1 [H2 H3]]].
    exists (([], ws) :: pads). split.
    + simpl. constructor; [|exact HF]. rewrite Ht.
      unfold is_trim, padded. simpl. repeat split; assumption.
    + simpl. rewrite Hz. f_equal. rewrite Ht. unfold padded. simpl.
      now rewrite <- H1.
Qed.

(** ** What an overwritten section takes away

    Stripping and re-joining move whitespace only, so the characters
    that are not whitespace tell whether a section got lost. *)

Lemma nonws_app (a b : str) : nonws (a ++ b) = nonws a + nonws b.
Proof. unfold nonws. now rewrite filter_app, length_app. Qed.

Lemma nonws_space (w : str) : forallb isspace w = true -> nonws w = 0.
Proof.
  induction w as [|c w IH]; [reflexivity|]. simpl.
  intros H. apply andb_true_iff in H as [Hc Hw].
  unfold nonws in *. simpl. rewrite Hc. simpl. auto.
Qed.

Lemma nonws_strip (s : str) : nonws (strip s) = nonws s.
Proof.
  unfold strip.
  destruct (rstrip_split (lstrip s)) as [ws [H1 H2]].
  rewrite <- (dropwhile_takewhile isspace s) at 2.
  fold (lstrip s). rewrite nonws_app, (nonws_space _ (takewhile_all _ _)).
  rewrite H1 at 2. rewrite nonws_app, (nonws_space _ H2). lia.
Qed.

Lemma nonws_join (l : list str) :
  nonws (join [LF] l) = list_sum (map nonws l).
Proof.
  induction l as [|x l IH]; [reflexivity|].
  destruct l as [|y l]; [simpl; lia|].
  rewrite join_cons by discriminate.
  rewrite !nonws_app, IH. simpl. lia.
Qed.

Lemma nonws_padded (contents : list str) (pads : list (str * str)) :
  Forall2 is_trim contents pads ->
  map nonws (map (fun cp => padded (fst cp) (snd cp)) (combine contents pads))
  = map nonws contents.
Proof.
  induction 1 as [|c pad cs ps [_ [_ Hc]] _ IH]; [reflexivity|].
  simpl. rewrite IH. f_equal.
  rewrite <- Hc at 2. now rewrite nonws_strip.
Qed.

Lemma list_sum_perm (l l' : list nat) :
  Permutation l l' -> list_sum l = list_sum l'.
Proof. induction 1; simpl; lia. Qed.

Section Lost.

Variable V : Type.
Implicit Types (d a es lost : PyDict.dict V).

(** An assignment either appends or replaces one item. *)
Lemma set_lost d k v :
  exists lost, Permutation (d ++ [(k, v)]) (PyDict.set d k v ++ lost).
Proof.
  induction d as [|[k' v'] d [lost IH]]; simpl.
  - now exists [].
  - destruct (str_eqb k' k) eqn:E.
    + apply str_eqb_eq in E. subst k'. exists [(k, v')].
      transitivity ((k, v') :: (k, v) :: d).
      * constructor. symmetry. apply Permutation_cons_append.
      * rewrite perm_swap. constructor. apply Permutation_cons_append.
    + exists lost. simpl. now constructor.
Qed.

(** The items of [a] and [es] are those of [{**a, **es}] and the
    replaced ones. *)
Lemma merge_lost es : forall a,
  exists lost, Permutation (a ++ es) (PyDict.merge a es ++ lost).
Proof.
  induction es as [|[k v] es IH]; intros a.
  - exists []. simpl. now rewrite !app_nil_r.
  - rewrite merge_cons. simpl fst. simpl snd.
    destruct (IH (PyDict.set a k v)) as [lost2 H2].
    destruct (set_lost a k v) as [lost1 H1].
    exists (lost2 ++ lost1).
    change (a ++ (k, v) :: es) with (a ++ [(k, v)] ++ es).
    rewrite app_assoc, H1, <- app_assoc.
    rewrite (Permutation_app_comm lost1 es), app_assoc, H2.
    now rewrite <- app_assoc.
Qed.

Variable weight : str * V -> nat.

(** When every item weighs something and the dictionary built from a
    list of items weighs as much as the list, the keys of the list are
    pairwise distinct. *)
Lemma merge_weight_NoDup es :
  (forall item, In item es -> 1 <= weight item) ->
  list_sum (map weight (PyDict.merge [] es)) = list_sum (map weight es) ->
  NoDup (PyDict.keys es).
Proof.
  intros Hpos Hsum. destruct (merge_lost es []) as [lost Hperm].
  simpl in Hperm.
  assert (Hl : lost = []).
  { destruct lost as [|x lost]; [reflexivity|]. exfalso.
    assert (Hx : 1 <= weight x).
    { apply Hpos. apply (Permutation_in x (Permutation_sym Hperm)).
      apply in_or_app. right. now left. }
    pose proof (list_sum_perm (Permutation_map weight Hperm)) as Hs.
    rewrite map_app, list_sum_app in Hs. simpl in Hs. lia. }
  subst lost. rewrite app_nil_r in Hperm.
  apply (Permutation_NoDup (l := PyDict.keys (PyDict.merge [] es))).
  - unfold PyDict.keys. apply Permutation_map. now symmetry.
  - apply NoDup_keys_merge. constructor.
Qed.

End Lost.

(** A document whose sections re-join has pairwise distinct header
    texts: re-joining works for these documents and for no others. *)
Lemma rejoins_distinct_titles (text dtype : str) :
  rejoins text dtype -> NoDup (header_titles text).
Proof.
  unfold rejoins. intros [pads [HF Hj]].
  apply (f_equal nonws) in Hj. rewrite nonws_join, (nonws_padded HF) in Hj.
  unfold from_first_header in Hj.
  rewrite <- chunks_from_dropwhile, <- join_concat, nonws_join in Hj.
  2:{ rewrite Forall_forall. intros g Hg. apply in_map_iff in Hg.
      destruct Hg as [c [<- Hc]].
      pose proof (chunks_from_wf (split_lines text)) as Hwf.
      rewrite Forall_forall in Hwf.
      destruct (Hwf c Hc) as [h [body [-> _]]]. discriminate. }
  rewrite parse_sections_chunks in Hj.
  assert (Hnd : NoDup (PyDict.keys (map (chunk_item dtype) (chunks text)))).
  { apply merge_weight_NoDup with (weight := item_weight).
    - intros item Hi. apply in_map_iff in Hi as [c [<- Hc]].
      unfold item_weight. simpl. rewrite nonws_strip.
      destruct (chunk_text_hash c _ Hc) as [t ->]. unfold nonws. simpl. lia.
    - unfold PyDict.values in Hj. rewrite !map_map in Hj.
      rewrite !map_map. unfold item_weight. rewrite Hj.
      f_equal. apply map_ext. intros c. simpl. symmetry. apply nonws_strip. }
  rewrite keys_chunk_items in Hnd.
  rewrite <- chunks_titles.
  apply (NoDup_map_inv (fun t => dtype ++ py ": " ++ t)).
  now rewrite map_map.
Qed.

(** ** The loops of the searches *)

(** A loop that only appends to its accumulator. *)
Lemma fold_left_emit (A B : Type) (step : list B -> A -> list B) :
  (forall acc x, step acc x = acc ++ step [] x) ->
  forall l acc, fold_left step l acc = acc ++ flat_map (step []) l.
Proof.
  intros Hstep. induction l as [|x l IH]; intros acc; simpl.
  - now rewrite app_nil_r.
  - rewrite IH, Hstep. now rewrite <- app_assoc.
Qed.

Lemma flat_map_filter_map (A B : Type) (p : A -> bool) (f : A -> B)
  (l : list A) :
  flat_map (fun x => if p x then [f x] else []) l = map f (filter p l).
Proof.
  induction l as [|x l IH]; [reflexivity|]. simpl.
  destruct (p x); simpl; now rewrite IH.
Qed.

Lemma firstn_3 (A : Type) (l : list A) :
  firstn 3 l =
  flat_map (fun j => match nth_error l j with Some x => [x] | None => [] end)
    [0; 1; 2].
Proof. destruct l as [|a [|b [|c l]]]; reflexivity. Qed.

Lemma firstn_2 (A : Type) (l : list A) :
  firstn 2 l =
  flat_map (fun j => match nth_error l j with Some x => [x] | None => [] end)
    [0; 1].
Proof. destruct l as [|a [|b l]]; reflexivity. Qed.

Lemma nth_error_skipn (A : Type) (l : list A) (a j : nat) :
  nth_error (skipn a l) j = nth_error l (a + j).
Proof.
  revert l. induction a as [|a IH]; intros l; [reflexivity|].
  destruct l as [|x l]; simpl; [now destruct j|apply IH].
Qed.

(** The slice of [context_step] is the window around [i]. *)
Lemma slice_window (lines : list str) (i : nat) :
  i < length lines ->
  slice (Nat.max 0 (i - 1)) (Nat.min (length lines) (i + 2)) lines
  = window lines i.
Proof.
  intros Hi. unfold slice, window. simpl Nat.max.
  destruct i as [|i].
  - simpl. rewrite Nat.sub_0_r.
    replace (firstn (Nat.min (length lines) 2) lines) with (firstn 2 lines).
    + now rewrite firstn_2.
    + destruct lines as [|a [|b l]]; try reflexivity.
      now rewrite Nat.min_r by (simpl; lia).
  - replace (S i - 1) with i by lia. simpl (S i =? 0).
    replace (firstn (Nat.min (length lines) (S i + 2) - i) (skipn i lines))
      with (firstn 3 (skipn i lines)).
    + rewrite firstn_3. cbn [app flat_map]. rewrite !nth_error_skipn.
      replace (i + 0) with i by lia. replace (i + 1) with (S i) by lia.
      replace (i + 2) with (S i + 1) by lia. reflexivity.
    + destruct (Nat.le_gt_cases (S i + 2) (length lines)) as [H|H].
      * rewrite Nat.min_r by lia. f_equal. lia.
      * rewrite Nat.min_l by lia.
        rewrite (firstn_all2 (n := 3)) by (rewrite length_skipn; lia).
        rewrite firstn_all2 by (rewrite length_skipn; lia). reflexivity.
Qed.

(** The loop over [enumerate(content_lines)] collects the windows. *)
Lemma context_loop (lines : list str) (keyword : str) (cs : bool) :
  fold_left (context_step lines (fold_case cs keyword) cs)
    (enumerate lines) []
  = context_windows lines keyword cs.
Proof.
  rewrite fold_left_emit.
  2:{ intros acc [i line]. unfold context_step.
      destruct (contains _ _); [reflexivity|now rewrite app_nil_r]. }
  simpl. unfold context_windows, enumerate.
  assert (G : forall (pre rest : list str),
             lines = pre ++ rest ->
             flat_map (context_step lines (fold_case cs keyword) cs [])
               (combine (seq (length pre) (length rest)) rest)
             = flat_map (fun i =>
                 if contains (fold_case cs keyword)
                      (fold_case cs (nth i lines []))
                 then window lines i else [])
                 (seq (length pre) (length rest))).
  { intros pre rest. revert pre.
    induction rest as [|l rest IH]; intros pre E; [reflexivity|].
    simpl. rewrite <- slice_window
      by (rewrite E, length_app; simpl; lia).
    replace (nth (length pre) lines []) with l
      by (rewrite E, app_nth2, Nat.sub_diag by lia; reflexivity).
    specialize (IH (pre ++ [l])). rewrite length_app in IH. simpl in IH.
    replace (length pre + 1) with (S (length pre)) in IH by lia.
    rewrite IH by (rewrite <- app_assoc; exact E).
    unfold fold_case. destruct cs; reflexivity. }
  exact (G [] lines eq_refl).
Qed.

Lemma fold_case_nil (cs : bool) : fold_case cs [] = [].
Proof. now destruct cs. Qed.

(** The results of the title search before they are sorted. *)
Lemma name_loop (items : PyDict.dict section_data) (keyword : str) (cs : bool) :
  fold_left (name_step (fold_case cs keyword) cs) items []
  = map name_result_of (filter (name_matches keyword cs) items).
Proof.
  rewrite fold_left_emit.
  2:{ intros acc [name data]. unfold name_step.
      destruct (contains _ _); [reflexivity|now rewrite app_nil_r]. }
  simpl. rewrite <- flat_map_filter_map. apply flat_map_ext.
  intros [name data]. unfold name_step, name_matches, fold_case. simpl.
  destruct cs; reflexivity.
Qed.

(** The results of the content search before they are sorted. *)
Lemma content_loop (items : PyDict.dict section_data) (keyword : str)
  (cs : bool) :
  fold_left (content_step (fold_case cs keyword) cs) items []
  = map (content_result_of keyword cs) (filter (content_matches keyword cs) items).
Proof.
  rewrite fold_left_emit.
  2:{ intros acc [name data]. unfold content_step.
      destruct (contains _ _); [reflexivity|now rewrite app_nil_r]. }
  simpl. rewrite <- flat_map_filter_map. apply flat_map_ext.
  intros [name data]. unfold content_step, content_matches. simpl.
  replace (if cs then content data else lower (content data))
    with (fold_case cs (content data)) by reflexivity.
  destruct (contains _ _); [|reflexivity].
  rewrite context_loop. reflexivity.
Qed.

Lemma search_by_section_name_eq (self : DocumentParser) (keyword : str)
  (cs : bool) :
  search_by_section_name self keyword cs
  = sorted nr_level false
      (map name_result_of (filter (name_matches keyword cs) (all_sections self))).
Proof.
  unfold search_by_section_name. now rewrite <- name_loop.
Qed.

Lemma search_by_content_text_eq (self : DocumentParser) (keyword : str)
  (cs : bool) :
  search_by_content_text self keyword cs
  = sorted cr_match_count true
      (map (content_result_of keyword cs)
         (filter (content_matches keyword cs) (all_sections self))).
Proof.
  unfold search_by_content_text. now rewrite <- content_loop.
Qed.

(** ** Items of the dictionaries *)

(** Every item of a parsed dictionary comes from a chunk. *)
Lemma parse_sections_In (text dtype name : str) (data : section_data) :
  In (name, data) (_parse_sections text dtype) ->
  exists c, In c (chunks text) /\ (name, data) = chunk_item dtype c.
Proof.
  rewrite parse_sections_chunks. intros H.
  apply in_merge in H as [[]|H].
  apply in_map_iff in H as [c [Hc Hin]]. now exists c.
Qed.

(** The keys of a parsed dictionary start with the document type. *)
Lemma parse_sections_key_prefix (text dtype name : str) :
  In name (PyDict.keys (_parse_sections text dtype)) ->
  exists t, name = dtype ++ t.
Proof.
  intros H. apply In_keys in H as [data H].
  apply parse_sections_In in H as [c [_ Hc]].
  injection Hc as -> _. unfold chunk_name. eauto.
Qed.

(** The two documents of the index never share a key: the qualified
    names of the first start with [M], those of the second with [P]. *)
Lemma init_keys_disjoint (mcp_text sdk_text k : str) :
  In k (PyDict.keys (_parse_sections sdk_text (py "Python SDK"))) ->
  ~ In k (PyDict.keys (_parse_sections mcp_text (py "MCP Documentation"))).
Proof.
  intros H1 H2.
  apply parse_sections_key_prefix in H1 as [t1 ->].
  apply parse_sections_key_prefix in H2 as [t2 H2].
  discriminate.
Qed.

Lemma init_NoDup (mcp_text sdk_text : str) :
  NoDup (PyDict.keys (all_sections (DocumentParser_init mcp_text sdk_text))).
Proof. apply NoDup_keys_merge, parse_sections_NoDup. Qed.

Lemma filter_map_comm (A B : Type) (p : B -> bool) (f : A -> B) (l : list A) :
  filter p (map f l) = map f (filter (fun x => p (f x)) l).
Proof.
  induction l as [|x l IH]; [reflexivity|]. simpl.
  destruct (p (f x)); simpl; now rewrite IH.
Qed.

Lemma filter_filter (A : Type) (p q : A -> bool) (l : list A) :
  filter p (filter q l) = filter (fun x => q x && p x) l.
Proof.
  induction l as [|x l IH]; [reflexivity|]. simpl.
  destruct (q x); simpl; [destruct (p x)|]; now rewrite IH.
Qed.

Lemma filter_true (A : Type) (p : A -> bool) (l : list A) :
  (forall x, p x = true) -> filter p l = l.
Proof.
  intros H. induction l as [|x l IH]; [reflexivity|]. simpl.
  now rewrite H, IH.
Qed.

(** Every result of the content search belongs to an item of the
    index that holds the keyword. *)
Lemma content_result_In (self : DocumentParser) (keyword : str) (cs : bool)
  (r : content_result) :
  In r (search_by_content_text self keyword cs) ->
  exists item, In item (all_sections self)
               /\ content_matches keyword cs item = true
               /\ r = content_result_of keyword cs item.
Proof.
  rewrite search_by_content_text_eq, sorted_In, in_map_iff.
  intros [item [<- H]]. apply filter_In in H as [H1 H2]. now exists item.
Qed.

(** Every result of the title search belongs to an item of the index
    whose name holds the keyword. *)
Lemma name_result_In (self : DocumentParser) (keyword : str) (cs : bool)
  (r : name_result) :
  In r (search_by_section_name self keyword cs) ->
  exists item, In item (all_sections self)
               /\ name_matches keyword cs item = true
               /\ r = name_result_of item.
Proof.
  rewrite search_by_section_name_eq, sorted_In, in_map_iff.
  intros [item [<- H]]. apply filter_In in H as [H1 H2]. now exists item.
Qed.

(** * The claims *)

(** ** C1: re-joining the sections *)

(** C1, as amended: when no two header lines of the document have the
    same trimmed text, re-joining the contents of the parsed sections in
    document order gives the document from its first header line
    onward, up to the whitespace that [strip] removed from the end of
    each section. *)
Theorem parse_rejoin_distinct_titles (text dtype : str) :
  NoDup (header_titles text) -> rejoins text dtype.
Proof.
  intros Hnd. unfold rejoins.
  rewrite (@parse_sections_distinct text dtype Hnd).
  unfold PyDict.values. rewrite !map_map.
  change (map (fun x => content (snd (chunk_item dtype x))) (chunks text))
    with (map (fun c => strip (join [LF] (ch_lines c))) (chunks text)).
  destruct (@chunks_trimmed (chunks text)) as [pads [HF Hz]].
  { intros c Hc. eapply chunk_text_hash. exact Hc. }
  exists pads. split; [exact HF|]. rewrite Hz.
  unfold from_first_header. rewrite <- chunks_from_dropwhile.
  rewrite <- join_concat.
  - now rewrite map_map.
  - rewrite Forall_forall. intros g Hg. apply in_map_iff in Hg.
    destruct Hg as [c [<- Hc]].
    pose proof (chunks_from_wf (split_lines text)) as Hwf.
    rewrite Forall_forall in Hwf.
    destruct (Hwf c Hc) as [h [body [-> _]]]. discriminate.
Qed.

Lemma parse_rejoin_distinct_titles_witness :
  NoDup (header_titles doc_AB) /\ rejoins doc_AB (py "Doc").
Proof.
  assert (H : NoDup (header_titles doc_AB)).
  { vm_compute. constructor; [intros [H|[]]; discriminate|].
    constructor; [intros []|constructor]. }
  split; [exact H|].
  apply (@parse_rejoin_distinct_titles doc_AB (py "Doc") H).
Defined.

(** C1 as stated fails on a document that repeats a header text: the
    second section replaces the first one, whose lines are lost. *)
Lemma parse_rejoin_repeated_title : ~ rejoins doc_AA (py "Doc").
Proof.
  unfold rejoins. intros [pads [HF Hj]].
  vm_compute in HF.
  inversion HF as [|c [before after] cs rest [Hb _] Hrest]; subst.
  inversion Hrest; subst. simpl in Hb.
  destruct before as [|b before].
  - vm_compute in Hj. discriminate.
  - apply andb_true_iff in Hb as [Hb _].
    vm_compute in Hj. injection Hj as -> _. discriminate.
Qed.

(** ** C2: the title of a section *)




(** ** C3: the scenario of [doc_AB] *)

(** C3, as amended: the document of the scenario has two sections,
    ["Doc: A"] of level 1 and ["Doc: B"] of level 2, with the contents
    of the claim and a word count of 4 each, the header marker being a
    word of its own; the search for ["hello"] returns both with one
    match each, ["Doc: A"] first. *)
Theorem scenario_AB_four_words : scenario_AB 4.
Proof.
  split.
  - eexists. eexists. split; [vm_compute; reflexivity|].
    repeat split.
  - vm_compute. reflexivity.
Qed.

(** C3 as stated fails: neither section has 3 words. *)
Lemma scenario_AB_not_three_words : ~ scenario_AB 3.
Proof.
  intros [[a [b [Hp [_ [_ [Hw _]]]]]] _].
  vm_compute in Hp. injection Hp as <- _. vm_compute in Hw. discriminate.
Qed.


(** ** C4: the match count *)

(** C4: every result of the content search carries the number of
    occurrences without overlap, as [str.count] gives it, of the
    case-folded keyword in the whole case-folded content of its
    section; that section holds the keyword, so the number is at least
    one.  For the empty keyword every section of the index is returned
    once, with a count of one more than the length of the text that is
    searched, the case-folded content. *)
Theorem match_count_is_count (self : DocumentParser) (keyword : str)
  (case_sensitive : bool) :
  (forall r,
     In r (search_by_content_text self keyword case_sensitive) ->
     exists data,
       In (cr_section_name r, data) (all_sections self)
       /\ contains (fold_case case_sensitive keyword)
            (fold_case case_sensitive (content data)) = true
       /\ cr_match_count r =
          count (fold_case case_sensitive (content data))
            (fold_case case_sensitive keyword)
       /\ occurrences (fold_case case_sensitive (content data))
            (fold_case case_sensitive keyword) (cr_match_count r)
       /\ 1 <= cr_match_count r)
  /\ Permutation
       (map cr_section_name (search_by_content_text self [] case_sensitive))
       (PyDict.keys (all_sections self))
  /\ (forall r,
        In r (search_by_content_text self [] case_sensitive) ->
        exists data,
          In (cr_section_name r, data) (all_sections self)
          /\ cr_match_count r
             = length (fold_case case_sensitive (content data)) + 1).
Proof.
  repeat split.
  - intros r Hr. apply content_result_In in Hr as [[name data] [H1 [H2 ->]]].
    exists data. simpl. split; [assumption|]. split; [assumption|].
    split; [reflexivity|]. split.
    + apply count_occurrences.
    + now apply count_positive.
  - rewrite search_by_content_text_eq.
    rewrite (Permutation_map _ (sorted_perm _ _ _)).
    rewrite filter_true, map_map; [reflexivity|].
    intros item. unfold content_matches.
    rewrite fold_case_nil. apply contains_nil.
  - intros r Hr. apply content_result_In in Hr as [[name data] [H1 [_ ->]]].
    exists data. simpl. split; [assumption|].
    unfold content_count. rewrite fold_case_nil. reflexivity.
Qed.

(** ** C5: the order of the content search *)

(** C5: the results of the content search are in descending order of
    their match counts, and the results with one match count are the
    sections of the index with that count, in the order of the
    index. *)
Theorem content_results_descending (self : DocumentParser) (keyword : str)
  (case_sensitive : bool) :
  let results := search_by_content_text self keyword case_sensitive in
  (forall i j d,
     i < j -> j < length results ->
     cr_match_count (nth i results d) >= cr_match_count (nth j results d))
  /\ (forall c,
        map cr_section_name
          (filter (fun r => cr_match_count r =? c) results)
        = map fst
            (filter (fun item =>
                       content_matches keyword case_sensitive item
                       && (content_count keyword case_sensitive item =? c))
               (all_sections self))).
Proof.
  intros results. subst results. rewrite search_by_content_text_eq. split.
  - intros i j d Hij Hj.
    exact (StronglySorted_nth d (sorted_ordered cr_match_count true _) Hij Hj).
  - intros c. rewrite sorted_stable, filter_map_comm, filter_filter, map_map.
    reflexivity.
Qed.

(** On [doc_ABC] the section with two matches moves to the front and
    the two sections with one match keep their order. *)
Lemma content_search_ABC :
  map (fun r => (cr_section_name r, cr_match_count r))
    (search_by_content_text (index_of doc_ABC (py "Doc")) (py "HELLO") false)
  = [(py "Doc: B", 2); (py "Doc: A", 1); (py "Doc: C", 1)].
Proof. vm_compute. reflexivity. Qed.

(** ** C6: the title search *)

(** C6: with the empty keyword and without case sensitivity the title
    search returns every section of the index once; for every keyword
    its results are in ascending order of level, and the results of one
    level are the matching sections of that level in the order of the
    index. *)
Theorem title_results_ascending (self : DocumentParser) :
  Permutation
    (map nr_section_name (search_by_section_name self [] false))
    (PyDict.keys (all_sections self))
  /\ (forall keyword case_sensitive,
        let results := search_by_section_name self keyword case_sensitive in
        (forall i j d,
           i < j -> j < length results ->
           nr_level (nth i results d) <= nr_level (nth j results d))
        /\ (forall lv,
              map nr_section_name
                (filter (fun r => nr_level r =? lv) results)
              = map fst
                  (filter (fun item =>
                             name_matches keyword case_sensitive item
                             && (level (snd item) =? lv))
                     (all_sections self)))).
Proof.
  split.
  - rewrite search_by_section_name_eq.
    rewrite (Permutation_map _ (sorted_perm _ _ _)).
    rewrite filter_true, map_map; [reflexivity|].
    intros item. apply contains_nil.
  - intros keyword cs results. subst results.
    rewrite search_by_section_name_eq. split.
    + intros i j d Hij Hj.
      exact (StronglySorted_nth d (sorted_ordered nr_level false _) Hij Hj).
    + intros lv. rewrite sorted_stable, filter_map_comm, filter_filter, map_map.
      reflexivity.
Qed.

(** On [doc_ABC] the section of level 2 moves behind the two of level
    1, which keep their order. *)
Lemma title_search_ABC :
  map (fun r => (nr_section_name r, nr_level r))
    (search_by_section_name (index_of doc_ABC (py "Doc")) [] false)
  = [(py "Doc: A", 1); (py "Doc: C", 1); (py "Doc: B", 2)].
Proof. vm_compute. reflexivity. Qed.

(** ** C7: the preview *)

(** C7: the preview of a result of the title search is the first 200
    characters of the content of its section, followed by ["..."]
    exactly when the content has more than 200 characters; a content of
    250 characters gives a preview of 203. *)
Theorem preview_truncation (self : DocumentParser) (keyword : str)
  (case_sensitive : bool) (r : name_result) :
  In r (search_by_section_name self keyword case_sensitive) ->
  exists data,
    In (nr_section_name r, data) (all_sections self)
    /\ nr_preview r =
       firstn 200 (content data)
       ++ (if 200 <? length (content data) then py "..." else [])
    /\ (length (content data) = 250 -> length (nr_preview r) = 203).
Proof.
  intros Hr. apply name_result_In in Hr as [[name data] [H1 [_ ->]]].
  exists data. cbn [nr_preview nr_section_name name_result_of fst snd].
  split; [assumption|]. unfold preview_of, slice_to.
  split.
  - destruct (Nat.ltb_spec 200 (length (content data))) as [H|H].
    + reflexivity.
    + now rewrite firstn_all2, app_nil_r.
  - intros H. rewrite H. change (200 <? 250) with true. cbv iota.
    rewrite length_app, length_firstn, H. reflexivity.
Qed.

Lemma preview_truncation_witness :
  exists data,
    In (py "Doc: " ++ repeat "a"%char 248, data)
      (all_sections (index_of doc_250 (py "Doc")))
    /\ nr_preview (name_result_of (item_250 (py "Doc"))) =
       firstn 200 (content data)
       ++ (if 200 <? length (content data) then py "..." else [])
    /\ (length (content data) = 250 ->
        length (nr_preview (name_result_of (item_250 (py "Doc")))) = 203).
Proof.
  apply (@preview_truncation (index_of doc_250 (py "Doc")) [] false
           (name_result_of (item_250 (py "Doc")))).
  vm_compute. left. reflexivity.
Defined.

(** The section of [doc_250] has 250 characters, and its preview 203. *)
Lemma preview_250 :
  map (fun r => length (nr_preview r))
    (search_by_section_name (index_of doc_250 (py "Doc")) [] false) = [203]
  /\ map (fun data => length (content data))
       (PyDict.values (all_sections (index_of doc_250 (py "Doc")))) = [250].
Proof. split; vm_compute; reflexivity. Qed.

(** ** C8: the context of a match *)

(** C8: the matching context of a result of the content search is made
    of the windows of the lines [i-1], [i] and [i+1], as far as the
    content of the section has them, of every line [i] of the content
    that holds the case-folded keyword, one window after the other in
    the order of the lines and with the repetitions of overlapping
    windows; of these lines the first 10 are kept and joined. *)
Theorem matching_context_windows (self : DocumentParser) (keyword : str)
  (case_sensitive : bool) (r : content_result) :
  In r (search_by_content_text self keyword case_sensitive) ->
  exists data,
    In (cr_section_name r, data) (all_sections self)
    /\ cr_matching_context r =
       join [LF]
         (firstn 10
            (context_windows (split_lines (content data))
               keyword case_sensitive)).
Proof.
  intros Hr. apply content_result_In in Hr as [[name data] [H1 [_ ->]]].
  exists data. simpl. now split.
Qed.

Lemma matching_context_windows_witness :
  exists data,
    In (py "Doc: A", data) (all_sections (index_of doc_AB (py "Doc")))
    /\ py "# A" ++ [LF] ++ py "hello world" =
       join [LF]
         (firstn 10
            (context_windows (split_lines (content data)) (py "hello") false)).
Proof.
  apply (@matching_context_windows (index_of doc_AB (py "Doc")) (py "hello")
           false
           {| cr_section_name := py "Doc: A";
              cr_doc_type := py "Doc";
              cr_level := 1;
              cr_word_count := 4;
              cr_matching_context := py "# A" ++ [LF] ++ py "hello world";
              cr_match_count := 1 |}).
  vm_compute. left. reflexivity.
Defined.

(** Two neighbouring lines that match repeat each other in the
    context: ["# A\nhello\nhello"] gives the five lines
    ["# A\nhello\nhello\nhello\nhello"]. *)
Lemma matching_context_repeats :
  map (@cr_matching_context)
    (search_by_content_text (index_of doc_hello2 (py "Doc")) (py "hello") false)
  = [py "# A" ++ [LF] ++ py "hello" ++ [LF] ++ py "hello" ++ [LF]
     ++ py "hello" ++ [LF] ++ py "hello"].
Proof. vm_compute. reflexivity. Qed.

(** ** C9: the lookup *)

(** C9: on the index built from two documents the lookup of a name
    returns the section stored under it when the name is a key and
    [None], without raising, when it is not; the object is the same
    after the call. *)
Theorem get_section_content_lookup (mcp_text sdk_text n : str) :
  let self := DocumentParser_init mcp_text sdk_text in
  (forall data,
     fst (get_section_content self n) = Some data
     <-> In (n, data) (all_sections self))
  /\ (fst (get_section_content self n) = None
      <-> ~ In n (PyDict.keys (all_sections self)))
  /\ snd (get_section_content self n) = self.
Proof.
  intros self. repeat split.
  - apply get_Some_In.
  - apply In_get, init_NoDup.
  - apply get_None.
  - apply get_None.
Qed.

(** The lookup of ["Doc: Z"] in the index of [doc_AB] finds nothing,
    that of ["Doc: B"] finds the second section. *)
Lemma get_section_content_AB :
  fst (get_section_content (index_of doc_AB (py "Doc")) (py "Doc: Z")) = None
  /\ option_map (@level)
       (fst (get_section_content (index_of doc_AB (py "Doc")) (py "Doc: B")))
     = Some 2.
Proof. split; vm_compute; reflexivity. Qed.

(** ** C10: the merged index *)

(** C10: the index of [__init__] is the dictionary parsed from the
    first document as ["MCP Documentation"], into which the items of
    the dictionary parsed from the second document as ["Python SDK"]
    are merged afterwards, so that they follow; its keys are pairwise
    distinct.  The merge keeps one section for each qualified name:
    whatever the document types of two parsed dictionaries, where both
    have a name the merged dictionary holds the section of the second
    one, and the section of the first one elsewhere.  Within one
    document the last chunk under a qualified name is the one that the
    dictionary keeps. *)
Theorem merged_index_last_write_wins (mcp_text sdk_text : str) :
  let self := DocumentParser_init mcp_text sdk_text in
  (mcp_sections self = _parse_sections mcp_text (py "MCP Documentation")
   /\ sdk_sections self = _parse_sections sdk_text (py "Python SDK")
   /\ all_sections self
      = PyDict.merge (mcp_sections self) (sdk_sections self)
   /\ all_sections self = mcp_sections self ++ sdk_sections self)
  /\ NoDup (PyDict.keys (all_sections self))
  /\ (forall k,
        PyDict.get (all_sections self) k =
        match PyDict.get (sdk_sections self) k with
        | Some data => Some data
        | None => PyDict.get (mcp_sections self) k
        end)
  /\ (forall text1 dtype1 text2 dtype2,
        let earlier := _parse_sections text1 dtype1 in
        let later := _parse_sections text2 dtype2 in
        NoDup (PyDict.keys (PyDict.merge earlier later))
        /\ forall k,
             PyDict.get (PyDict.merge earlier later) k =
             match PyDict.get later k with
             | Some data => Some data
             | None => PyDict.get earlier k
             end)
  /\ (forall text dtype,
        NoDup (PyDict.keys (_parse_sections text dtype))
        /\ forall k,
             PyDict.get (_parse_sections text dtype) k =
             PyDict.get (rev (map (chunk_item dtype) (chunks text))) k).
Proof.
  intros self. split; [|split; [apply init_NoDup|split; [|split]]].
  - repeat split. simpl. apply merge_disjoint.
    + apply parse_sections_NoDup.
    + intros k. apply init_keys_disjoint.
  - intros k. apply get_merge, parse_sections_NoDup.
  - intros text1 dtype1 text2 dtype2 earlier later. split.
    + apply NoDup_keys_merge, parse_sections_NoDup.
    + intros k. apply get_merge, parse_sections_NoDup.
  - intros text dtype. split; [apply parse_sections_NoDup|].
    intros k. rewrite parse_sections_chunks, get_merge_last.
    now destruct (PyDict.get _ k).
Qed.

(** Two documents of one type that share a header text: the merged
    dictionary holds the section of the second document for it, at
    the place of the first, and the new section of the second document
    behind those of the first. *)
Lemma merge_collision :
  map (fun item => (fst item, content (snd item)))
    (PyDict.merge
       (_parse_sections (py "# A" ++ [LF] ++ py "x" ++ [LF] ++ py "# B")
          (py "Doc"))
       (_parse_sections (py "# C" ++ [LF] ++ py "# A" ++ [LF] ++ py "y")
          (py "Doc")))
  = [(py "Doc: A", py "# A" ++ [LF] ++ py "y");
     (py "Doc: B", py "# B");
     (py "Doc: C", py "# C")].
Proof. vm_compute. reflexivity. Qed.

(** The repeated header of [doc_AA] leaves one section, the second. *)
Lemma repeated_title_overwrites :
  map (fun item => (fst item, content (snd item)))
    (_parse_sections doc_AA (py "Doc"))
  = [(py "Doc: A", py "# A" ++ [LF] ++ py "y")].
Proof. vm_compute. reflexivity. Qed.

(** With the document types of [__init__] the sections of the second
    document follow those of the first in the merged index. *)
Lemma init_all_sections (mcp_text sdk_text : str) :
  let self := DocumentParser_init mcp_text sdk_text in
  all_sections self = mcp_sections self ++ sdk_sections self.
Proof.
  simpl. apply merge_disjoint.
  - apply parse_sections_NoDup.
  - intros k. apply init_keys_disjoint.
Qed.

(** * Further properties of the code *)

(** ** More on strings *)

Lemma dropwhile_app (A : Type) (p : A -> bool) (a b : list A) :
  dropwhile p (a ++ b) =
  match dropwhile p a with
  | [] => dropwhile p b
  | x :: r => (x :: r) ++ b
  end.
Proof.
  induction a as [|x a IH]; [reflexivity|]. simpl.
  destruct (p x); [exact IH|reflexivity].
Qed.

Lemma dropwhile_idem (A : Type) (p : A -> bool) (l : list A) :
  dropwhile p (dropwhile p l) = dropwhile p l.
Proof.
  induction l as [|x l IH]; [reflexivity|]. simpl.
  destruct (p x) eqn:E; [exact IH|]. simpl. now rewrite E.
Qed.

Lemma dropwhile_all (A : Type) (p : A -> bool) (l : list A) :
  forallb p l = true -> dropwhile p l = [].
Proof.
  induction l as [|x l IH]; [reflexivity|]. simpl.
  destruct (p x); [exact IH|discriminate].
Qed.

(** [rstrip] leaves a front of visible characters alone. *)
Lemma rstrip_app_visible (g t : str) :
  forallb (fun c => negb (isspace c)) g = true ->
  rstrip (g ++ t) = g ++ rstrip t.
Proof.
  intros Hg. unfold rstrip. rewrite rev_app_distr, dropwhile_app.
  destruct (dropwhile isspace (rev t)) as [|x r] eqn:E.
  - simpl. destruct (rev g) as [|c rg] eqn:Eg.
    + apply (f_equal (@rev _)) in Eg. rewrite rev_involutive in Eg.
      now subst g.
    + assert (Hc : isspace c = false).
      { rewrite forallb_forall in Hg. specialize (Hg c).
        apply negb_true_iff, Hg, in_rev. rewrite Eg. now left. }
      simpl. rewrite Hc. rewrite <- Eg, rev_involutive.
      now rewrite app_nil_r.
  - rewrite rev_app_distr, rev_involutive. reflexivity.
Qed.

(** What [rstrip] keeps is a front part of the text. *)
Lemma rstrip_cons (c : ascii) (t : str) :
  rstrip (c :: t) = [] \/ exists u, rstrip (c :: t) = c :: u.
Proof.
  destruct (rstrip_split (c :: t)) as [ws [H _]].
  destruct (rstrip (c :: t)) as [|x u]; [now left|right].
  injection H as <- _. now exists u.
Qed.

Lemma rstrip_idem (s : str) : rstrip (rstrip s) = rstrip s.
Proof.
  unfold rstrip. now rewrite rev_involutive, dropwhile_idem.
Qed.

(** [strip] has nothing left to remove from its own result. *)
Lemma strip_idem (s : str) : strip (strip s) = strip s.
Proof.
  unfold strip at 1. 
  assert (Hl : lstrip (strip s) = strip s).
  { unfold strip. destruct (lstrip s) as [|c t] eqn:E; [reflexivity|].
    assert (Hc : isspace c = false).
    { unfold lstrip in E. clear -E. induction s as [|x s IH]; [discriminate|].
      simpl in E. destruct (isspace x) eqn:Ex; [auto|]. now injection E as <- _. }
    destruct (rstrip_cons c t) as [->|[u ->]]; [reflexivity|].
    unfold lstrip. simpl. now rewrite Hc. }
  rewrite Hl. unfold strip. apply rstrip_idem.
Qed.

(** A text is its stripped form between two runs of whitespace. *)
Lemma strip_decompose (s : str) :
  exists w1 w2,
    s = w1 ++ strip s ++ w2
    /\ forallb isspace w1 = true /\ forallb isspace w2 = true.
Proof.
  destruct (rstrip_split (lstrip s)) as [w2 [H1 H2]].
  exists (takewhile isspace s), w2. repeat split.
  - unfold strip. rewrite <- H1. unfold lstrip.
    now rewrite dropwhile_takewhile.
  - apply takewhile_all.
  - exact H2.
Qed.

Lemma strip_space (ws : str) : forallb isspace ws = true -> strip ws = [].
Proof.
  intros H. unfold strip, lstrip. now rewrite dropwhile_all.
Qed.

Lemma split_ws_aux_space (ws : str) :
  forallb isspace ws = true -> forall cur,
  split_ws_aux cur ws = match cur with [] => [] | _ :: _ => [rev cur] end.
Proof.
  induction ws as [|c ws IH]; intros H cur; [reflexivity|].
  simpl in H. apply andb_true_iff in H as [Hc Hw]. simpl. rewrite Hc.
  destruct cur; rewrite (IH Hw); reflexivity.
Qed.

Lemma split_ws_aux_app_space (s ws : str) :
  forallb isspace ws = true -> forall cur,
  split_ws_aux cur (s ++ ws) = split_ws_aux cur s.
Proof.
  intros Hw. induction s as [|c s IH]; intros cur; simpl.
  - now apply split_ws_aux_space.
  - destruct (isspace c); [destruct cur|]; now rewrite IH.
Qed.

Lemma split_ws_space_app (ws s : str) :
  forallb isspace ws = true -> split_ws (ws ++ s) = split_ws s.
Proof.
  unfold split_ws. induction ws as [|c ws IH]; intros H; [reflexivity|].
  simpl in H. apply andb_true_iff in H as [Hc Hw]. simpl. rewrite Hc. auto.
Qed.

(** The words of a text are those of its stripped form. *)
Lemma split_ws_strip (s : str) : split_ws (strip s) = split_ws s.
Proof.
  destruct (strip_decompose s) as [w1 [w2 [H [H1 H2]]]].
  rewrite H at 2. rewrite split_ws_space_app by assumption.
  unfold split_ws. now rewrite split_ws_aux_app_space.
Qed.

Lemma split_ws_aux_not_nil (s cur : str) :
  cur <> [] -> split_ws_aux cur s <> [].
Proof.
  revert cur. induction s as [|c s IH]; intros cur H; simpl.
  - destruct cur; congruence.
  - destruct (isspace c).
    + destruct cur; [congruence|discriminate].
    + apply IH. discriminate.
Qed.

(** ** More on header lines *)

Lemma take_hashes_all (n : nat) (s : str) :
  forallb (Ascii.eqb HASH) (take_hashes n s) = true.
Proof.
  revert s. induction n as [|n IH]; intros [|c s]; try reflexivity.
  simpl. destruct (Ascii.eqb_spec c HASH) as [->|]; [|reflexivity].
  simpl. apply IH.
Qed.

Lemma take_hashes_prefix (n : nat) (s : str) :
  s = take_hashes n s ++ skipn (length (take_hashes n s)) s.
Proof.
  revert s. induction n as [|n IH]; intros [|c s]; try reflexivity.
  simpl. destruct (Ascii.eqb c HASH); [|reflexivity].
  simpl. now rewrite <- IH.
Qed.

(** The hashes in front of a text are found again when the text
    goes on with something else, or ends. *)
Lemma take_hashes_app (n : nat) (g u : str) :
  forallb (Ascii.eqb HASH) g = true -> length g <= n ->
  match u with [] => True | c :: _ => c <> HASH end ->
  take_hashes n (g ++ u) = g.
Proof.
  revert n. induction g as [|c g IH]; intros n Hg Hn Hu.
  - simpl. destruct n; [now destruct u|].
    destruct u as [|x u]; [reflexivity|]. simpl.
    destruct (Ascii.eqb_spec x HASH); [contradiction|reflexivity].
  - change (forallb (Ascii.eqb HASH) (c :: g))
      with (Ascii.eqb HASH c && forallb (Ascii.eqb HASH) g) in Hg.
    apply andb_true_iff in Hg as [Hc Hg].
    apply Ascii.eqb_eq in Hc. subst c.
    destruct n; [simpl in Hn; lia|].
    change (take_hashes (S n) ((HASH :: g) ++ u))
      with (HASH :: take_hashes n (g ++ u)).
    f_equal. apply IH; [assumption|simpl in Hn; lia|assumption].
Qed.

Lemma hashes_visible (g : str) :
  forallb (Ascii.eqb HASH) g = true ->
  forallb (fun c => negb (isspace c)) g = true.
Proof.
  rewrite !forallb_forall. intros H c Hc.
  apply H, Ascii.eqb_eq in Hc. now subst c.
Qed.

Lemma last_cons_In (A : Type) (l : list A) : forall x d,
  In (last (x :: l) d) (x :: l).
Proof.
  induction l as [|y l IH]; intros x d; [now left|].
  right. apply (IH y d).
Qed.

(** The shape of a header line: one to six hashes, a whitespace
    character, and more; the second group strips to what follows the
    hashes, stripped. *)
Lemma header_match_shape (l g1 g2 : str) :
  header_match l = Some (g1, g2) ->
  exists w rest,
    l = g1 ++ w :: rest
    /\ isspace w = true
    /\ forallb (Ascii.eqb HASH) g1 = true
    /\ 1 <= length g1 <= 6
    /\ strip g2 = strip (w :: rest).
Proof.
  intros H. pose proof (header_match_hash _ H) as [_ Hlen].
  unfold header_match in H.
  pose proof (take_hashes_all 6 l) as Hall.
  pose proof (take_hashes_prefix 6 l) as Hpre.
  destruct (take_hashes 6 l) as [|h hs] eqn:E; [discriminate|].
  set (rest := skipn (length (h :: hs)) l) in *.
  pose proof (dropwhile_takewhile isspace rest) as Hr.
  pose proof (takewhile_all isspace rest) as Hsp.
  destruct (takewhile isspace rest) as [|w sp] eqn:Esp; [discriminate|].
  simpl in Hsp. apply andb_true_iff in Hsp as [Hw Hsp].
  destruct (dropwhile isspace rest) as [|x tl] eqn:Edrop.
  - destruct sp as [|w' sp']; [discriminate|].
    injection H as Hg1 Hg2. subst g1.
    change ([last (w' :: sp') w] = g2) in Hg2. subst g2.
    exists w, (w' :: sp'). rewrite app_nil_r in Hr.
    repeat split; try assumption; try lia.
    + rewrite Hpre at 1. fold rest. now rewrite Hr.
    + assert (Hl : isspace (last (w' :: sp') w) = true).
      { rewrite forallb_forall in Hsp. apply Hsp, last_cons_In. }
      rewrite (strip_space [last (w' :: sp') w])
        by (cbn [forallb]; now rewrite Hl).
      rewrite (strip_space (w :: w' :: sp')); [reflexivity|].
      cbn [forallb]. rewrite Hw. exact Hsp.
  - injection H as <- <-. exists w, (sp ++ x :: tl).
    repeat split; try assumption; try lia.
    + rewrite Hpre at 1. fold rest. now rewrite <- Hr.
    + unfold strip. f_equal. unfold lstrip.
      change (w :: sp ++ x :: tl) with ((w :: sp) ++ x :: tl).
      rewrite dropwhile_app.
      rewrite (dropwhile_all isspace (w :: sp))
        by (cbn [forallb]; rewrite Hw; exact Hsp).
      reflexivity.
Qed.

(** ** The sections that the parser stores *)

Lemma join_cons_app (x : str) (body : list str) :
  exists t, join [LF] (x :: body) = x ++ t.
Proof.
  destruct body as [|y body].
  - exists []. simpl. now rewrite app_nil_r.
  - exists ([LF] ++ join [LF] (y :: body)). reflexivity.
Qed.

(** Every stored section comes from a header line [g1 ++ w :: rest]
    of the document: its content is [g1] followed by nothing or by
    [w] and more, its level is the length of [g1], and its other
    fields are as the parser computes them from the stored content. *)
Lemma parse_item_shape (text dtype name : str) (data : section_data) :
  In (name, data) (_parse_sections text dtype) ->
  exists g1 u,
    content data = g1 ++ u
    /\ forallb (Ascii.eqb HASH) g1 = true
    /\ level data = length g1
    /\ 1 <= length g1 <= 6
    /\ match u with [] => True | w :: _ => isspace w = true end
    /\ strip (content data) = content data
    /\ word_count data = length (split_ws (content data))
    /\ doc_type data = dtype
    /\ title data = name.
Proof.
  intros H. apply parse_sections_In in H as [c [Hin Hc]].
  injection Hc as -> ->.
  pose proof (chunks_from_wf (split_lines text)) as Hwf.
  rewrite Forall_forall in Hwf.
  destruct (Hwf c Hin) as [h [body [Hl [Hm _]]]].
  apply header_match_shape in Hm as [w [rest [Hh [Hw [Hg [Hlen _]]]]]].
  destruct (join_cons_app h body) as [t Ht].
  assert (Hj : join [LF] (ch_lines c) = ch_group1 c ++ w :: rest ++ t).
  { rewrite Hl, Ht, Hh, <- app_assoc. reflexivity. }
  assert (Hs : strip (join [LF] (ch_lines c))
               = ch_group1 c ++ rstrip (w :: rest ++ t)).
  { rewrite Hj. unfold strip.
    replace (lstrip (ch_group1 c ++ w :: rest ++ t))
      with (ch_group1 c ++ w :: rest ++ t).
    - apply rstrip_app_visible, hashes_visible, Hg.
    - destruct (ch_group1 c) as [|x g]; [simpl in Hlen; lia|].
      change (forallb (Ascii.eqb HASH) (x :: g))
        with (Ascii.eqb HASH x && forallb (Ascii.eqb HASH) g) in Hg.
      apply andb_true_iff in Hg as [Hx _]. apply Ascii.eqb_eq in Hx.
      subst x. reflexivity. }
  exists (ch_group1 c), (rstrip (w :: rest ++ t)).
  cbn [chunk_item snd fst section_record content level word_count doc_type
       title].
  repeat split; try assumption; try lia.
  - destruct (rstrip_cons w (rest ++ t)) as [->|[u ->]]; [exact I|exact Hw].
  - apply strip_idem.
  - now rewrite split_ws_strip.
Qed.

(** X1. The level of every stored section lies between 1 and 6, and
    it is the number of hashes, up to six, that its content starts
    with. *)
Theorem section_level_from_content (text dtype name : str)
  (data : section_data) :
  In (name, data) (_parse_sections text dtype) ->
  1 <= level data <= 6
  /\ level data = length (take_hashes 6 (content data)).
Proof.
  intros H.
  apply parse_item_shape in H
    as [g1 [u [Hc [Hg [Hl [Hlen [Hu _]]]]]]].
  split; [lia|]. rewrite Hc, take_hashes_app; try assumption; try lia.
  destruct u as [|w u]; [exact I|]. intros ->. discriminate.
Qed.

Lemma section_level_from_content_witness :
  1 <= level (section_record (py "Doc") (py "Doc: B")
                [py "## B"; py "hello again"; []] 2) <= 6
  /\ level (section_record (py "Doc") (py "Doc: B")
              [py "## B"; py "hello again"; []] 2)
     = length (take_hashes 6
                 (content (section_record (py "Doc") (py "Doc: B")
                             [py "## B"; py "hello again"; []] 2))).
Proof.
  apply (@section_level_from_content doc_AB (py "Doc") (py "Doc: B")).
  vm_compute. right. left. reflexivity.
Defined.

(** X2. The content of every stored section starts with a hash, so it
    is not empty, and has no whitespace at either end. *)
Theorem section_content_stripped (text dtype name : str)
  (data : section_data) :
  In (name, data) (_parse_sections text dtype) ->
  (exists t, content data = HASH :: t)
  /\ strip (content data) = content data.
Proof.
  intros H.
  apply parse_item_shape in H
    as [g1 [u [Hc [Hg [_ [Hlen [_ [Hs _]]]]]]]].
  split; [|exact Hs]. rewrite Hc.
  destruct g1 as [|x g]; [simpl in Hlen; lia|].
  change (forallb (Ascii.eqb HASH) (x :: g))
    with (Ascii.eqb HASH x && forallb (Ascii.eqb HASH) g) in Hg.
  apply andb_true_iff in Hg as [Hx _]. apply Ascii.eqb_eq in Hx.
  subst x. now exists (g ++ u).
Qed.

Lemma section_content_stripped_witness :
  (exists t,
     content (section_record (py "Doc") (py "Doc: B")
                [py "## B"; py "hello again"; []] 2) = HASH :: t)
  /\ strip (content (section_record (py "Doc") (py "Doc: B")
                       [py "## B"; py "hello again"; []] 2))
     = content (section_record (py "Doc") (py "Doc: B")
                  [py "## B"; py "hello again"; []] 2).
Proof.
  apply (@section_content_stripped doc_AB (py "Doc") (py "Doc: B")).
  vm_compute. right. left. reflexivity.
Defined.

(** X3. The word count of every stored section is the number of
    words of its stored content, although the parser counts them
    before stripping, and it is at least 1. *)
Theorem section_word_count (text dtype name : str) (data : section_data) :
  In (name, data) (_parse_sections text dtype) ->
  word_count data = length (split_ws (content data))
  /\ 1 <= word_count data.
Proof.
  intros H. pose proof H as H'.
  apply parse_item_shape in H
    as [g1 [u [Hc [Hg [_ [Hlen [_ [_ [Hw _]]]]]]]]].
  split; [exact Hw|]. rewrite Hw, Hc.
  destruct g1 as [|x g]; [simpl in Hlen; lia|].
  apply hashes_visible in Hg.
  change (forallb (fun c => negb (isspace c)) (x :: g))
    with (negb (isspace x) && forallb (fun c => negb (isspace c)) g) in Hg.
  apply andb_true_iff in Hg as [Hx _]. apply negb_true_iff in Hx.
  unfold split_ws. simpl. rewrite Hx.
  pose proof (@split_ws_aux_not_nil (g ++ u) [x]) as Hn.
  destruct (split_ws_aux [x] (g ++ u)); [now contradiction Hn|simpl; lia].
Qed.

Lemma section_word_count_witness :
  word_count (section_record (py "Doc") (py "Doc: B")
                [py "## B"; py "hello again"; []] 2)
  = length (split_ws (content (section_record (py "Doc") (py "Doc: B")
                                 [py "## B"; py "hello again"; []] 2)))
  /\ 1 <= word_count (section_record (py "Doc") (py "Doc: B")
                        [py "## B"; py "hello again"; []] 2).
Proof.
  apply (@section_word_count doc_AB (py "Doc") (py "Doc: B")).
  vm_compute. right. left. reflexivity.
Defined.

(** ** The lines in front of the first header *)

Lemma split_lines_visible (x : str) : ~ In LF x -> split_lines x = [x].
Proof.
  induction x as [|c x IH]; intros H; [reflexivity|]. simpl.
  destruct (Ascii.eqb_spec c LF) as [->|Hc]; [exfalso; apply H; now left|].
  rewrite IH; [reflexivity|]. intros Hx. apply H. now right.
Qed.

Lemma split_lines_app_LF (x s : str) :
  ~ In LF x -> split_lines (x ++ LF :: s) = x :: split_lines s.
Proof.
  induction x as [|c x IH]; intros H.
  - reflexivity.
  - simpl. destruct (Ascii.eqb_spec c LF) as [->|Hc];
      [exfalso; apply H; now left|].
    rewrite IH; [reflexivity|]. intros Hx. apply H. now right.
Qed.

(** Splitting what was joined gives the lines back, when there is a
    line and no line holds a line feed. *)
Lemma split_lines_join (ls : list str) :
  ls <> [] -> Forall (fun l => ~ In LF l) ls ->
  split_lines (join [LF] ls) = ls.
Proof.
  induction ls as [|x ls IH]; intros Hne Hf; [congruence|].
  inversion Hf as [|? ? Hx Hls]; subst.
  destruct ls as [|y ls].
  - simpl. now apply split_lines_visible.
  - rewrite join_cons by discriminate.
    change ([LF] ++ join [LF] (y :: ls)) with (LF :: join [LF] (y :: ls)).
    rewrite split_lines_app_LF by assumption.
    rewrite IH; [reflexivity|discriminate|assumption].
Qed.

Lemma chunks_from_drop (lines : list str) :
  snd (chunks_from (dropwhile (fun l => negb (is_header l)) lines))
  = snd (chunks_from lines).
Proof.
  induction lines as [|l ls IH]; [reflexivity|].
  cbn [dropwhile]. unfold is_header at 1.
  cbn [chunks_from]. destruct (chunks_from ls) as [pre cs] eqn:E.
  destruct (header_match l) as [[g1 g2]|] eqn:Eh; cbn [negb].
  - cbn [chunks_from]. now rewrite E, Eh.
  - exact IH.
Qed.

Lemma dropwhile_Forall (A : Type) (P : A -> Prop) (p : A -> bool)
  (l : list A) :
  Forall P l -> Forall P (dropwhile p l).
Proof.
  induction 1 as [|x l Hx Hl IH]; [constructor|]. simpl.
  destruct (p x); [exact IH|now constructor].
Qed.

Lemma chunks_from_first_header (text : str) :
  chunks (from_first_header text) = chunks text.
Proof.
  unfold chunks, from_first_header.
  rewrite <- (chunks_from_drop (split_lines text)).
  destruct (dropwhile (fun l => negb (is_header l)) (split_lines text))
    as [|l ls] eqn:E; [reflexivity|].
  rewrite split_lines_join; [reflexivity|discriminate|].
  rewrite <- E. apply dropwhile_Forall, split_lines_no_LF.
Qed.

(** X4. What stands in front of the first header line has no effect:
    the document and its part from the first header line onward have
    the same sections. *)
Theorem parse_ignores_preamble (text dtype : str) :
  _parse_sections (from_first_header text) dtype = _parse_sections text dtype.
Proof.
  rewrite (parse_sections_chunks dtype (from_first_header text)).
  rewrite (parse_sections_chunks dtype text).
  rewrite chunks_from_first_header. reflexivity.
Qed.

Lemma merge_nil_iff (V : Type) (a es : PyDict.dict V) :
  PyDict.merge a es = [] <-> a = [] /\ es = [].
Proof.
  split; [|intros [-> ->]; reflexivity].
  revert a. induction es as [|[k v] es IH]; intros a H; [now split|].
  rewrite merge_cons in H. apply IH in H as [H _].
  destruct a as [|[k' v'] a]; simpl in H; [discriminate|].
  destruct (str_eqb k' k); discriminate.
Qed.

Lemma chunks_from_nil (lines : list str) :
  snd (chunks_from lines) = []
  <-> forallb (fun l => negb (is_header l)) lines = true.
Proof.
  induction lines as [|l ls IH]; [now split|].
  cbn [chunks_from forallb]. unfold is_header at 1.
  destruct (chunks_from ls) as [pre cs]. simpl in IH.
  destruct (header_match l) as [[g1 g2]|]; simpl.
  - split; discriminate.
  - exact IH.
Qed.

(** X5. The parser returns the empty dictionary exactly for the
    documents without a header line, the empty document among them. *)
Theorem parse_empty_iff_no_header (text dtype : str) :
  _parse_sections text dtype = []
  <-> forallb (fun l => negb (is_header l)) (split_lines text) = true.
Proof.
  rewrite parse_sections_chunks, merge_nil_iff, <- chunks_from_nil.
  unfold chunks. split.
  - intros [_ H]. now apply map_eq_nil in H.
  - intros ->. now split.
Qed.

(** ** The order of the keys *)

Lemma first_occurrences_ext (l : list str) : forall s1 s2,
  (forall x, In x s1 <-> In x s2) ->
  first_occurrences s1 l = first_occurrences s2 l.
Proof.
  induction l as [|x l IH]; intros s1 s2 H; [reflexivity|]. simpl.
  destruct (in_dec str_dec x s1) as [H1|H1];
    destruct (in_dec str_dec x s2) as [H2|H2].
  - now apply IH.
  - apply H in H1. contradiction.
  - apply H in H2. contradiction.
  - f_equal. apply IH. intros y. simpl. rewrite H. tauto.
Qed.

Lemma first_occurrences_length (l : list str) : forall seen,
  length (first_occurrences seen l) <= length l.
Proof.
  induction l as [|x l IH]; intros seen; [simpl; lia|]. simpl.
  destruct (in_dec str_dec x seen); simpl.
  - specialize (IH seen). lia.
  - specialize (IH (x :: seen)). lia.
Qed.

Lemma first_occurrences_map (f : str -> str) (l : list str) :
  (forall x y, f x = f y -> x = y) -> forall seen,
  first_occurrences (map f seen) (map f l)
  = map f (first_occurrences seen l).
Proof.
  intros Hf. induction l as [|x l IH]; intros seen; [reflexivity|]. simpl.
  destruct (in_dec str_dec (f x) (map f seen)) as [H1|H1];
    destruct (in_dec str_dec x seen) as [H2|H2].
  - apply IH.
  - apply in_map_iff in H1 as [y [Hy Hin]]. apply Hf in Hy. subst y.
    contradiction.
  - exfalso. apply H1. now apply in_map.
  - simpl. f_equal. apply (IH (x :: seen)).
Qed.

(** The keys of [{**a, **es}]: those of [a], then the new keys of
    [es] where they appear first. *)
Lemma keys_merge_first (V : Type) (es : PyDict.dict V) : forall a,
  PyDict.keys (PyDict.merge a es)
  = PyDict.keys a ++ first_occurrences (PyDict.keys a) (PyDict.keys es).
Proof.
  induction es as [|[k v] es IH]; intros a.
  - simpl. now rewrite app_nil_r.
  - rewrite merge_cons, IH. cbn [fst snd]. rewrite keys_set.
    cbn [PyDict.keys map fst first_occurrences].
    fold (PyDict.keys es). fold (PyDict.keys a).
    destruct (in_dec str_dec k (PyDict.keys a)) as [H|H]; [reflexivity|].
    rewrite <- app_assoc. simpl. do 2 f_equal.
    apply first_occurrences_ext. intros x. rewrite in_app_iff. simpl. tauto.
Qed.

(** X6. The keys of the parsed dictionary are the qualified header
    texts of the document in the order in which they appear first, so
    there are at most as many sections as header lines. *)
Theorem parse_keys_first_occurrences (text dtype : str) :
  PyDict.keys (_parse_sections text dtype)
  = map (fun t => dtype ++ py ": " ++ t)
      (first_occurrences [] (header_titles text))
  /\ length (_parse_sections text dtype) <= length (header_titles text).
Proof.
  assert (H : PyDict.keys (_parse_sections text dtype)
              = map (fun t => dtype ++ py ": " ++ t)
                  (first_occurrences [] (header_titles text))).
  { rewrite parse_sections_chunks, keys_merge_first. simpl.
    rewrite keys_chunk_items, <- chunks_titles.
    rewrite <- (@first_occurrences_map (fun t => dtype ++ py ": " ++ t)).
    - now rewrite map_map.
    - intros x y E. apply app_inv_head in E. now apply app_inv_head in E. }
  split; [exact H|].
  apply (f_equal (@length _)) in H. unfold PyDict.keys in H.
  rewrite !length_map in H. rewrite H. apply first_occurrences_length.
Qed.

(** ** Search results and the lookup *)

(** X9. On the index built from two documents every result of either
    search names a section that the lookup finds, and the document
    type, level and word count of the result are those of that
    section. *)
Theorem search_results_resolve (mcp_text sdk_text keyword : str)
  (case_sensitive : bool) :
  let self := DocumentParser_init mcp_text sdk_text in
  (forall r,
     In r (search_by_section_name self keyword case_sensitive) ->
     exists data,
       fst (get_section_content self (nr_section_name r)) = Some data
       /\ nr_doc_type r = doc_type data
       /\ nr_level r = level data
       /\ nr_word_count r = word_count data)
  /\ (forall r,
        In r (search_by_content_text self keyword case_sensitive) ->
        exists data,
          fst (get_section_content self (cr_section_name r)) = Some data
          /\ cr_doc_type r = doc_type data
          /\ cr_level r = level data
          /\ cr_word_count r = word_count data).
Proof.
  intros self. split; intros r Hr.
  - apply name_result_In in Hr as [[name data] [Hin [_ ->]]].
    exists data. simpl. repeat split.
    apply In_get; [apply init_NoDup|exact Hin].
  - apply content_result_In in Hr as [[name data] [Hin [_ ->]]].
    exists data. simpl. repeat split.
    apply In_get; [apply init_NoDup|exact Hin].
Qed.

(** ** The context of a match, line by line *)

Lemma lower_char_LF (c : ascii) : lower_char c = LF -> c = LF.
Proof.
  destruct c as [b0 b1 b2 b3 b4 b5 b6 b7].
  destruct b0, b1, b2, b3, b4, b5, b6, b7; vm_compute; congruence.
Qed.

Lemma fold_case_LF (cs : bool) (s : str) :
  In LF (fold_case cs s) <-> In LF s.
Proof.
  destruct cs; [reflexivity|]. simpl. unfold lower. rewrite in_map_iff.
  split.
  - intros [c [Hc Hin]]. apply lower_char_LF in Hc. now subst c.
  - intros H. now exists LF.
Qed.

Lemma split_lines_lower (s : str) :
  split_lines (lower s) = map lower (split_lines s).
Proof.
  induction s as [|c s IH]; [reflexivity|].
  cbn [lower map split_lines]. fold (lower s). rewrite IH.
  destruct (Ascii.eqb_spec c LF) as [->|Hc].
  - reflexivity.
  - destruct (Ascii.eqb_spec (lower_char c) LF) as [E|_].
    + apply lower_char_LF in E. contradiction.
    + pose proof (split_lines_not_nil s) as Hn.
      destruct (split_lines s); [congruence|reflexivity].
Qed.

Lemma split_lines_fold_case (cs : bool) (s : str) :
  split_lines (fold_case cs s) = map (fold_case cs) (split_lines s).
Proof.
  destruct cs; simpl; [now rewrite map_id|apply split_lines_lower].
Qed.

Lemma contains_cons (sub s : str) (c : ascii) :
  contains sub s = true -> contains sub (c :: s) = true.
Proof.
  intros H. change (startswith sub (c :: s) || contains sub s = true).
  rewrite H. apply orb_true_r.
Qed.

(** A start without line feed is a start of the first line. *)
Lemma startswith_first_line (sub : str) : forall s,
  ~ In LF sub -> startswith sub s = true ->
  startswith sub (hd [] (split_lines s)) = true.
Proof.
  induction sub as [|a sub IH]; intros s Hlf H.
  - now destruct (hd [] (split_lines s)).
  - destruct s as [|b s]; [discriminate|].
    cbn [startswith] in H. apply andb_true_iff in H as [Hab H].
    apply Ascii.eqb_eq in Hab. subst b.
    cbn [split_lines].
    destruct (Ascii.eqb_spec a LF) as [->|_]; [exfalso; apply Hlf; now left|].
    pose proof (@IH s (fun Hx => Hlf (or_intror Hx)) H) as IH'.
    destruct (split_lines s) as [|l ls]; simpl in *.
    + rewrite Ascii.eqb_refl. now destruct sub.
    + now rewrite Ascii.eqb_refl, IH'.
Qed.

(** What a text holds and is without line feed, one of its lines
    holds. *)
Lemma contains_line (sub s : str) :
  ~ In LF sub -> contains sub s = true ->
  exists l, In l (split_lines s) /\ contains sub l = true.
Proof.
  intros Hlf. induction s as [|c s IH]; intros H.
  - exists []. split; [now left|exact H].
  - change (startswith sub (c :: s) || contains sub s = true) in H.
    apply orb_true_iff in H as [H|H].
    + apply (@startswith_first_line sub (c :: s) Hlf) in H.
      pose proof (split_lines_not_nil (c :: s)) as Hn.
      destruct (split_lines (c :: s)) as [|l ls]; [congruence|].
      exists l. split; [now left|]. simpl in H.
      destruct l; simpl; rewrite H; reflexivity.
    + destruct (IH H) as [l [Hin Hl]]. cbn [split_lines].
      destruct (Ascii.eqb c LF).
      * exists l. split; [now right|exact Hl].
      * destruct (split_lines s) as [|l0 ls]; [contradiction|].
        destruct Hin as [<-|Hin].
        -- exists (c :: l0). split; [now left|now apply contains_cons].
        -- exists l. split; [now right|exact Hl].
Qed.

Lemma firstn_subset (A : Type) (n : nat) (l : list A) (x : A) :
  In x (firstn n l) -> In x l.
Proof.
  revert l. induction n as [|n IH]; intros [|y l] H; try contradiction.
  destruct H as [<-|H]; [now left|right; auto].
Qed.

Lemma flat_map_nil (A B : Type) (f : A -> list B) (l : list A) :
  (forall x, In x l -> f x = []) -> flat_map f l = [].
Proof.
  induction l as [|x l IH]; intros H; [reflexivity|]. simpl.
  rewrite (H x (or_introl eq_refl)). apply IH.
  intros y Hy. apply H. now right.
Qed.

Lemma window_In (lines : list str) (i : nat) (x : str) :
  In x (window lines i) -> In x lines.
Proof.
  unfold window. rewrite in_flat_map. intros [j [_ H]].
  destruct (nth_error lines j) as [l|] eqn:E; [|contradiction].
  destruct H as [<-|[]]. eapply nth_error_In. exact E.
Qed.

Lemma window_self (lines : list str) (i : nat) :
  i < length lines -> In (nth i lines []) (window lines i).
Proof.
  intros Hi. unfold window. rewrite in_flat_map. exists i. split.
  - apply in_or_app. right. now left.
  - rewrite (nth_error_nth' lines [] Hi). now left.
Qed.

Lemma window_length (lines : list str) (i : nat) :
  length (window lines i) <= 3.
Proof.
  unfold window.
  assert (H : forall idx : list nat,
             length (flat_map (fun j => match nth_error lines j with
                                        | Some l => [l]
                                        | None => []
                                        end) idx) <= length idx).
  { induction idx as [|j idx IH]; [simpl; lia|]. simpl.
    rewrite length_app. destruct (nth_error lines j); simpl; lia. }
  etransitivity; [apply H|]. destruct (i =? 0); simpl; lia.
Qed.

(** The window of the first line that matches survives the cut. *)
Lemma flat_map_first_hit (A B : Type) (good : B -> Prop) (g : A -> list B)
  (n : nat) (idx : list A) :
  (forall i, In i idx -> g i = [] \/ (length (g i) <= n /\ Exists good (g i))) ->
  (exists i, In i idx /\ g i <> []) ->
  Exists good (firstn n (flat_map g idx)).
Proof.
  induction idx as [|i idx IH]; intros Hall [j [Hj Hne]]; [contradiction|].
  simpl. destruct (Hall i (or_introl eq_refl)) as [E|[Hlen Hgood]].
  - rewrite E. simpl. apply IH.
    + intros k Hk. apply Hall. now right.
    + destruct Hj as [<-|Hj]; [congruence|]. now exists j.
  - rewrite firstn_app. apply Exists_app. left.
    now rewrite firstn_all2.
Qed.

Section Context.

Variables (keyword : str) (cs : bool) (lines : list str).
Hypothesis lines_visible : Forall (fun l => ~ In LF l) lines.

Lemma context_windows_In (x : str) :
  In x (context_windows lines keyword cs) -> In x lines.
Proof.
  unfold context_windows. rewrite in_flat_map. intros [i [_ H]].
  destruct (contains _ _); [|contradiction]. eapply window_In. exact H.
Qed.

(** A keyword with a line feed is in no line. *)
Lemma context_windows_multiline :
  In LF keyword -> context_windows lines keyword cs = [].
Proof.
  intros Hk. unfold context_windows. apply flat_map_nil.
  intros i Hi. apply in_seq in Hi as [_ Hi]. simpl in Hi.
  destruct (contains _ _) eqn:E; [exfalso|reflexivity].
  apply contains_spec in E as [pre [post E]].
  rewrite Forall_forall in lines_visible.
  apply (lines_visible (nth i lines [])); [now apply nth_In|].
  apply (fold_case_LF cs). rewrite E.
  apply in_or_app. right. apply in_or_app. left. now apply fold_case_LF.
Qed.

(** A line with the keyword is among the first ten lines of context. *)
Lemma context_windows_hit (line : str) :
  In line lines ->
  contains (fold_case cs keyword) (fold_case cs line) = true ->
  Exists (fun l => contains (fold_case cs keyword) (fold_case cs l) = true)
    (firstn 10 (context_windows lines keyword cs)).
Proof.
  intros Hin Hm. unfold context_windows. apply flat_map_first_hit.
  - intros i Hi. apply in_seq in Hi as [_ Hi]. simpl in Hi.
    destruct (contains (fold_case cs keyword)
                (fold_case cs (nth i lines []))) eqn:E; [right|now left].
    split.
    + pose proof (window_length lines i) as Hw. lia.
    + apply Exists_exists. exists (nth i lines []).
      split; [now apply window_self|exact E].
  - destruct (In_nth _ _ [] Hin) as [i [Hi Hn]]. exists i. split.
    + apply in_seq. split; [apply Nat.le_0_l|exact Hi].
    + cbv beta. unfold str in *. rewrite Hn, Hm. intros E.
      pose proof (@window_self lines i Hi) as Hw. rewrite E in Hw.
      contradiction.
Qed.

End Context.

(** X10. A keyword that holds a line feed can be found in a section,
    but in none of its lines: every result for it has an empty
    context and a match count of at least 1. *)
Theorem context_empty_for_multiline_keyword (self : DocumentParser)
  (keyword : str) (case_sensitive : bool) (r : content_result) :
  In LF keyword ->
  In r (search_by_content_text self keyword case_sensitive) ->
  cr_matching_context r = [] /\ 1 <= cr_match_count r.
Proof.
  intros Hk Hr. apply content_result_In in Hr as [item [_ [Hm ->]]].
  cbn [content_result_of cr_matching_context cr_match_count]. split.
  - rewrite context_windows_multiline; [reflexivity| |exact Hk].
    apply split_lines_no_LF.
  - unfold content_count. now apply count_positive.
Qed.

Lemma context_empty_for_multiline_keyword_witness :
  cr_matching_context
    (content_result_of (py "A" ++ [LF] ++ py "hello") false
       (py "Doc: A",
        section_record (py "Doc") (py "Doc: A")
          [py "# A"; py "hello world"] 1)) = []
  /\ 1 <= cr_match_count
            (content_result_of (py "A" ++ [LF] ++ py "hello") false
               (py "Doc: A",
                section_record (py "Doc") (py "Doc: A")
                  [py "# A"; py "hello world"] 1)).
Proof.
  apply (@context_empty_for_multiline_keyword
           (index_of doc_AB (py "Doc")) (py "A" ++ [LF] ++ py "hello") false).
  - vm_compute. tauto.
  - vm_compute. left. reflexivity.
Defined.

(** X11. For a keyword without line feed the context of every result
    has at least one and at most ten lines, each of them a line of the
    content of the section, and a line among them holds the
    keyword. *)
Theorem context_for_single_line_keyword (self : DocumentParser)
  (keyword : str) (case_sensitive : bool) (r : content_result) :
  ~ In LF keyword ->
  In r (search_by_content_text self keyword case_sensitive) ->
  exists data,
    In (cr_section_name r, data) (all_sections self)
    /\ 1 <= length (split_lines (cr_matching_context r)) <= 10
    /\ Forall (fun l => In l (split_lines (content data)))
         (split_lines (cr_matching_context r))
    /\ Exists (fun l => contains (fold_case case_sensitive keyword)
                          (fold_case case_sensitive l) = true)
         (split_lines (cr_matching_context r)).
Proof.
  intros Hk Hr.
  apply content_result_In in Hr as [[name data] [Hin [Hm ->]]].
  exists data. cbn [content_result_of cr_section_name cr_matching_context
                    fst snd].
  split; [exact Hin|].
  unfold content_matches in Hm. cbn [snd] in Hm.
  apply contains_line in Hm; [|now rewrite fold_case_LF].
  destruct Hm as [l [Hl Hc]]. rewrite split_lines_fold_case in Hl.
  apply in_map_iff in Hl as [line [<- Hline]].
  pose proof (@context_windows_hit keyword case_sensitive
                (split_lines (content data)) line Hline Hc) as Hex.
  set (kept := firstn 10 (context_windows (split_lines (content data))
                            keyword case_sensitive)) in *.
  assert (Hsub : Forall (fun l => In l (split_lines (content data))) kept).
  { rewrite Forall_forall. intros x Hx. apply firstn_subset in Hx.
    eapply context_windows_In. exact Hx. }
  assert (Hne : kept <> []).
  { intros E. rewrite E in Hex. inversion Hex. }
  rewrite split_lines_join; [|exact Hne|].
  - split; [|now split]. split.
    + destruct kept; [congruence|simpl; lia].
    + unfold kept. rewrite length_firstn. lia.
  - rewrite Forall_forall in *. intros x Hx.
    pose proof (split_lines_no_LF (content data)) as Hv.
    rewrite Forall_forall in Hv. apply Hv, Hsub, Hx.
Qed.

Lemma context_for_single_line_keyword_witness :
  exists data,
    In (py "Doc: A", data) (all_sections (index_of doc_AB (py "Doc")))
    /\ 1 <= length (split_lines (py "# A" ++ [LF] ++ py "hello world")) <= 10
    /\ Forall (fun l => In l (split_lines (content data)))
         (split_lines (py "# A" ++ [LF] ++ py "hello world"))
    /\ Exists (fun l => contains (fold_case false (py "hello"))
                          (fold_case false l) = true)
         (split_lines (py "# A" ++ [LF] ++ py "hello world")).
Proof.
  apply (@context_for_single_line_keyword
           (index_of doc_AB (py "Doc")) (py "hello") false
           {| cr_section_name := py "Doc: A";
              cr_doc_type := py "Doc";
              cr_level := 1;
              cr_word_count := 4;
              cr_matching_context := py "# A" ++ [LF] ++ py "hello world";
              cr_match_count := 1 |}).
  - vm_compute. intros [H|[H|[H|[H|[H|[]]]]]]; discriminate.
  - vm_compute. left. reflexivity.
Defined.

(** ** The listing *)

Lemma get_section_list_eq (self : DocumentParser) :
  get_section_list self = map summary_of_item (all_sections self).
Proof.
  unfold get_section_list. apply map_ext. now intros [name data].
Qed.

Lemma insert_sorted_map (A B : Type) (f : A -> B) (key : B -> nat)
  (reverse : bool) (x : A) (l : list A) :
  insert_sorted key reverse (f x) (map f l)
  = map f (insert_sorted (fun a => key (f a)) reverse x l).
Proof.
  induction l as [|y l IH]; [reflexivity|].
  cbn [map insert_sorted].
  change (goes_first (fun a => key (f a)) reverse x y)
    with (goes_first key reverse (f x) (f y)).
  destruct (goes_first key reverse (f x) (f y)); [reflexivity|].
  cbn [map]. now rewrite IH.
Qed.

(** Sorting commutes with a map that keeps the keys. *)
Lemma sorted_map (A B : Type) (f : A -> B) (key : B -> nat)
  (reverse : bool) (l : list A) :
  sorted key reverse (map f l)
  = map f (sorted (fun a => key (f a)) reverse l).
Proof.
  induction l as [|x l IH]; [reflexivity|]. simpl.
  now rewrite IH, insert_sorted_map.
Qed.

(** X12. The title search for the empty keyword returns the sections
    of the listing, sorted by level: without their previews its
    results are the items of [get_section_list] in ascending order of
    level, items of one level in the order of the listing. *)
Theorem empty_title_search_is_sorted_listing (self : DocumentParser) :
  map summary_of_result (search_by_section_name self [] false)
  = sorted ss_level false (get_section_list self).
Proof.
  rewrite search_by_section_name_eq, get_section_list_eq.
  rewrite filter_true by (intros item; apply contains_nil).
  change (@nr_level) with (fun r => ss_level (summary_of_result r)).
  rewrite <- sorted_map, map_map. reflexivity.
Qed.

(** ** The index of two documents *)

Lemma init_concat (mcp_text sdk_text : str) :
  all_sections (DocumentParser_init mcp_text sdk_text)
  = _parse_sections mcp_text (py "MCP Documentation")
    ++ _parse_sections sdk_text (py "Python SDK").
Proof.
  simpl. apply merge_disjoint.
  - apply parse_sections_NoDup.
  - intros k. apply init_keys_disjoint.
Qed.




(** X14. The merged index is the dictionary of the first document
    followed by that of the second: the qualified names of the two
    documents never collide, and no section of either is replaced. *)
Theorem init_sections_concatenated (mcp_text sdk_text : str) :
  let self := DocumentParser_init mcp_text sdk_text in
  all_sections self = mcp_sections self ++ sdk_sections self
  /\ (forall k, In k (PyDict.keys (mcp_sections self)) ->
                ~ In k (PyDict.keys (sdk_sections self))).
Proof.
  intros self. split; [apply init_concat|].
  intros k H1 H2. exact (init_keys_disjoint _ _ _ H2 H1).
Qed.

(** ** The details of a section *)

Lemma init_title (mcp_text sdk_text name : str) (data : section_data) :
  In (name, data) (all_sections (DocumentParser_init mcp_text sdk_text)) ->
  title data = name.
Proof.
  rewrite init_concat, in_app_iff.
  intros [H|H]; apply parse_item_shape in H;
    destruct H as [g1 [u [_ [_ [_ [_ [_ [_ [_ [_ Ht]]]]]]]]]]; exact Ht.
Qed.

(** X15. For a name under which the index of two documents holds a
    section, [get_section_details] answers with the page of that
    section: headed by the name itself, then the document type, level
    and word count, and the whole stored content at the end. *)
Theorem get_section_details_found (mcp_text sdk_text name : str)
  (data : section_data) :
  In (name, data) (all_sections (DocumentParser_init mcp_text sdk_text)) ->
  get_section_details (DocumentParser_init mcp_text sdk_text) name
  = py "# " ++ name ++ [LF; LF]
    ++ py "## Metadata" ++ [LF]
    ++ py "- **Document Type:** " ++ doc_type data ++ [LF]
    ++ py "- **Header Level:** H" ++ str_of_nat (level data) ++ [LF]
    ++ py "- **Word Count:** " ++ str_of_nat (word_count data) ++ [LF; LF]
    ++ py "## Full Content" ++ [LF; LF]
    ++ content data.
Proof.
  intros Hin. unfold get_section_details, get_section_content.
  rewrite (@In_get _ _ name data (init_NoDup mcp_text sdk_text) Hin).
  rewrite (@init_title mcp_text sdk_text name data Hin).
  rewrite <- !app_assoc. reflexivity.
Qed.

Lemma get_section_details_found_witness :
  get_section_details (DocumentParser_init doc_AB []) (py "MCP Documentation: A")
  = py "# " ++ py "MCP Documentation: A" ++ [LF; LF]
    ++ py "## Metadata" ++ [LF]
    ++ py "- **Document Type:** " ++ py "MCP Documentation" ++ [LF]
    ++ py "- **Header Level:** H" ++ str_of_nat 1 ++ [LF]
    ++ py "- **Word Count:** " ++ str_of_nat 4 ++ [LF; LF]
    ++ py "## Full Content" ++ [LF; LF]
    ++ (py "# A" ++ [LF] ++ py "hello world").
Proof.
  apply (@get_section_details_found doc_AB [] (py "MCP Documentation: A")
           (section_record (py "MCP Documentation")
              (py "MCP Documentation: A") [py "# A"; py "hello world"] 1)).
  vm_compute. left. reflexivity.
Defined.

(** X16. [get_section_details] answers with the page that says
    that the section was not found, and lists the first keys of the
    index, ten at most, exactly when the name is no key of the index
    of two documents. *)
Theorem get_section_details_missing (mcp_text sdk_text name : str) :
  let self := DocumentParser_init mcp_text sdk_text in
  get_section_details self name
  = py "Section '" ++ name ++ py "' not found." ++ [LF; LF]
    ++ py "Available sections (first 10):" ++ [LF]
    ++ concat (map (fun k => py "- " ++ k ++ [LF])
                 (firstn 10 (PyDict.keys (all_sections self))))
    ++ [LF]
    ++ py "Use search_sections_by_name() to find specific sections."
  <-> ~ In name (PyDict.keys (all_sections self)).
Proof.
  intros self. unfold get_section_details, get_section_content.
  destruct (PyDict.get (all_sections self) name) as [data|] eqn:E.
  - split.
    + intros H. simpl in H. discriminate.
    + intros H. apply get_None in H. congruence.
  - split; [intros _; now apply get_None|]. intros _.
    set (shown := firstn 10 _).
    assert (H : forall acc,
               fold_left (fun response section : str =>
                            response ++ py "- " ++ section ++ [LF]) shown acc
               = acc ++ concat (map (fun k => py "- " ++ k ++ [LF]) shown)).
    { induction shown as [|k ks IH]; intros acc;
        cbn [fold_left map concat].
      - now rewrite app_nil_r.
      - rewrite IH. rewrite <- !app_assoc. reflexivity. }
    rewrite H. rewrite <- !app_assoc. reflexivity.
Qed.

(** ** The overview of the core concepts *)

Lemma concept_loop (l : list name_result) : forall st,
  cc_result (fold_left concept_step l st)
  = cc_result st
    ++ concat (map concept_block (distinct_concepts (seen_sections st) l)).
Proof.
  induction l as [|c l IH]; intros st; cbn [fold_left distinct_concepts].
  - simpl. now rewrite app_nil_r.
  - rewrite IH. unfold concept_step.
    destruct (in_dec str_dec (nr_section_name c) (seen_sections st)).
    + reflexivity.
    + cbn [seen_sections cc_result map concat].
      now rewrite <- app_assoc.
Qed.

Lemma distinct_concepts_names (l : list name_result) : forall seen,
  NoDup (map (@nr_section_name) (distinct_concepts seen l))
  /\ forall c, In c (distinct_concepts seen l) ->
               In c l /\ ~ In (nr_section_name c) seen.
Proof.
  induction l as [|c l IH]; intros seen; cbn [distinct_concepts].
  - split; [constructor|intros c []].
  - destruct (in_dec str_dec (nr_section_name c) seen) as [Hs|Hs].
    + destruct (IH seen) as [H1 H2]. split; [exact H1|].
      intros x Hx. destruct (H2 x Hx). split; [now right|assumption].
    + destruct (IH (nr_section_name c :: seen)) as [H1 H2]. split.
      * cbn [map]. constructor; [|exact H1].
        intros Hin. apply in_map_iff in Hin as [x [Hx Hin]].
        destruct (H2 x Hin) as [_ Hn]. apply Hn. left. now symmetry.
      * intros x [<-|Hx]; [split; [now left|assumption]|].
        destruct (H2 x Hx) as [Hl Hn]. split; [now right|].
        intros Hin. apply Hn. now right.
Qed.

Lemma distinct_concepts_length (l : list name_result) : forall seen,
  length (distinct_concepts seen l) <= length l.
Proof.
  induction l as [|c l IH]; intros seen; cbn [distinct_concepts];
    [simpl; lia|].
  destruct (in_dec str_dec (nr_section_name c) seen); simpl.
  - specialize (IH seen). lia.
  - specialize (IH (nr_section_name c :: seen)). lia.
Qed.

Lemma concepts_found (self : DocumentParser) (keywords : list str) :
  forall acc,
    let found :=
      fold_left
        (fun concepts keyword =>
           concepts ++ firstn 2 (search_by_section_name self keyword false))
        keywords acc in
    length found <= length acc + 2 * length keywords
    /\ forall c, In c found ->
         In c acc
         \/ exists keyword,
              In keyword keywords
              /\ In c (search_by_section_name self keyword false).
Proof.
  induction keywords as [|k ks IH]; intros acc; cbn [fold_left].
  - split; [simpl; lia|]. intros c Hc. now left.
  - destruct (IH (acc ++ firstn 2 (search_by_section_name self k false)))
      as [H1 H2]. split.
    + cbv zeta in H1. rewrite length_app, length_firstn in H1.
      cbn [length]. lia.
    + intros c Hc. destruct (H2 c Hc) as [Ha|[kw [Hk Hs]]].
      * apply in_app_iff in Ha as [Ha|Ha]; [now left|right].
        exists k. split; [now left|]. eapply firstn_subset. exact Ha.
      * right. exists kw. split; [now right|exact Hs].
Qed.

(** X17. The overview of [get_core_concepts] shows no section twice:
    behind its head it holds one block for each of at most 14
    sections with pairwise distinct names, every one of them a result
    of the title search for one of the seven keywords. *)
Theorem get_core_concepts_distinct (self : DocumentParser) :
  exists shown : list name_result,
    get_core_concepts self
    = core_concepts_head ++ concat (map concept_block shown)
    /\ NoDup (map (@nr_section_name) shown)
    /\ length shown <= 14
    /\ forall c, In c shown ->
         exists keyword,
           In keyword core_keywords
           /\ In c (search_by_section_name self keyword false).
Proof.
  exists (distinct_concepts [] (core_concepts_found self)).
  destruct (distinct_concepts_names (core_concepts_found self) [])
    as [Hnd Hin].
  destruct (concepts_found self core_keywords []) as [Hlen Hfound].
  fold (core_concepts_found self) in Hlen, Hfound.
  repeat split.
  - unfold get_core_concepts. now rewrite concept_loop.
  - exact Hnd.
  - etransitivity; [apply distinct_concepts_length|].
    etransitivity; [exact Hlen|]. simpl. lia.
  - intros c Hc. destruct (Hin c Hc) as [Hc' _].
    destruct (Hfound c Hc') as [[]|H]. exact H.
Qed.

(** ** The search tool and its bound *)

Lemma fold_left_entries (items : list (nat * name_result)) : forall acc,
  fold_left (fun response item =>
               response ++ name_entry (fst item) (snd item)) items acc
  = acc ++ concat (map (fun item => name_entry (fst item) (snd item)) items).
Proof.
  induction items as [|x items IH]; intros acc; cbn [fold_left map concat].
  - now rewrite app_nil_r.
  - rewrite IH. now rewrite <- app_assoc.
Qed.

Lemma str_of_int_nat (n : nat) : str_of_int (Z.of_nat n) = str_of_nat n.
Proof.
  unfold str_of_int. destruct (Z.ltb_spec (Z.of_nat n) 0); [lia|].
  now rewrite Nat2Z.id.
Qed.

Lemma match_not_nil (A T : Type) (l : list A) (a b : T) :
  l <> [] -> match l with [] => a | _ :: _ => b end = b.
Proof. destruct l; [congruence|reflexivity]. Qed.

(** X18. [search_sections_by_name] answers that no sections were
    found exactly when no qualified name of the index holds the
    keyword under the case rule, whatever the bound. *)
Theorem search_tool_nothing_found (self : DocumentParser) (keyword : str)
  (case_sensitive : bool) (max_results : Z) :
  search_sections_by_name self keyword case_sensitive max_results
  = py "No sections found with '" ++ keyword ++ py "' in the section name."
  <-> forall item, In item (all_sections self) ->
                   name_matches keyword case_sensitive item = false.
Proof.
  unfold search_sections_by_name.
  destruct (search_by_section_name self keyword case_sensitive)
    as [|r rs] eqn:E.
  - split; [intros _|reflexivity]. intros item Hin.
    destruct (name_matches keyword case_sensitive item) eqn:Em;
      [exfalso|reflexivity].
    assert (H : In (name_result_of item)
                  (search_by_section_name self keyword case_sensitive)).
    { rewrite search_by_section_name_eq, sorted_In. apply in_map.
      apply filter_In. now split. }
    rewrite E in H. contradiction.
  - split.
    + intros H. exfalso. rewrite fold_left_entries in H.
      destruct (Z.of_nat (length (r :: rs)) >? max_results)%Z;
        cbn [py list_ascii_of_string app] in H; discriminate.
    + intros H. exfalso.
      assert (Hr : In r (search_by_section_name self keyword case_sensitive))
        by (rewrite E; now left).
      apply name_result_In in Hr as [item [Hin [Hm _]]].
      rewrite (H item Hin) in Hm. discriminate.
Qed.



(** X20. With a negative bound [-k] and results to show,
    [search_sections_by_name] leaves out the last [k] results, and its
    last line gives [k] more than the number of results found as the
    number of further results. *)
Theorem search_tool_negative_bound (self : DocumentParser) (keyword : str)
  (case_sensitive : bool) (max_results : Z) :
  (max_results < 0)%Z ->
  search_by_section_name self keyword case_sensitive <> [] ->
  let results := search_by_section_name self keyword case_sensitive in
  search_sections_by_name self keyword case_sensitive max_results
  = search_page keyword (length results)
      (firstn (length results - Z.abs_nat max_results) results)
      (Some (length results + Z.abs_nat max_results)).
Proof.
  intros Hm Hne results.
  unfold search_sections_by_name. rewrite match_not_nil by exact Hne.
  fold results. unfold slice_to_int.
  destruct (Z.leb_spec 0 max_results); [lia|].
  rewrite fold_left_entries. unfold search_page.
  destruct (Z.gtb_spec (Z.of_nat (length results)) max_results); [|lia].
  replace (Z.of_nat (length results) - max_results)%Z
    with (Z.of_nat (length results + Z.abs_nat max_results)) by lia.
  rewrite str_of_int_nat, <- !app_assoc. reflexivity.
Qed.

Lemma search_tool_negative_bound_witness :
  search_sections_by_name (index_of doc_ABC (py "Doc")) [] false (-1)
  = search_page []
      (length (search_by_section_name (index_of doc_ABC (py "Doc")) []
                 false))
      (firstn
         (length (search_by_section_name (index_of doc_ABC (py "Doc")) []
                    false) - Z.abs_nat (-1))
         (search_by_section_name (index_of doc_ABC (py "Doc")) [] false))
      (Some (length (search_by_section_name (index_of doc_ABC (py "Doc"))
                       [] false) + Z.abs_nat (-1))).
Proof.
  apply (@search_tool_negative_bound (index_of doc_ABC (py "Doc")) [] false
           (-1)%Z).
  - lia.
  - vm_compute. discriminate.
Defined.

(** ** Matches and matching lines *)

Lemma packing_skip_app (sub pre s : str) (n : nat) :
  packing sub s n -> packing sub (pre ++ s) n.
Proof.
  intros H. induction pre as [|c pre IH]; [exact H|].
  apply (@packing_skip sub c). exact IH.
Qed.

(** One occurrence can be marked in every line that holds [sub]. *)
Lemma packing_lines (sub : str) (lines : list str) :
  packing sub (join [LF] lines)
    (length (filter (contains sub) lines)).
Proof.
  induction lines as [|l ls IH]; [apply packing_none|].
  assert (Hrest : exists t,
             join [LF] (l :: ls) = l ++ t
             /\ packing sub t (length (filter (contains sub) ls))).
  { destruct ls as [|l' ls].
    - exists []. split; [simpl; now rewrite app_nil_r|apply packing_none].
    - exists ([LF] ++ join [LF] (l' :: ls)). split; [reflexivity|].
      now apply packing_skip_app. }
  destruct Hrest as [t [-> Ht]]. cbn [filter].
  destruct (contains sub l) eqn:E.
  - apply contains_spec in E as [pre [post ->]].
    rewrite <- !app_assoc. apply packing_skip_app.
    cbn [length]. apply packing_take. now apply packing_skip_app.
  - now apply packing_skip_app.
Qed.

Lemma split_lines_length (s : str) : length (split_lines s) <= length s + 1.
Proof.
  induction s as [|c s IH]; [simpl; lia|]. cbn [split_lines].
  destruct (Ascii.eqb c LF); [simpl; lia|].
  pose proof (split_lines_not_nil s) as Hn.
  destruct (split_lines s); [congruence|simpl in *; lia].
Qed.

(** The lines with [sub] are at most as many as the occurrences that
    [str.count] counts. *)
Lemma matching_lines_le_count (s sub : str) :
  length (filter (contains sub) (split_lines s)) <= count s sub.
Proof.
  destruct sub as [|c sub].
  - rewrite filter_true by apply contains_nil.
    apply split_lines_length.
  - change (count s (c :: sub)) with (count_scan (c :: sub) 0 s).
    apply packing_le; [discriminate|].
    rewrite <- (join_split_lines s) at 1. apply packing_lines.
Qed.

(** X21. The match count of every result of the content search is at
    least the number of lines of the section that hold the keyword,
    the lines that the context is drawn from. *)
Theorem match_count_covers_matching_lines (self : DocumentParser)
  (keyword : str) (case_sensitive : bool) (r : content_result) :
  In r (search_by_content_text self keyword case_sensitive) ->
  exists data,
    In (cr_section_name r, data) (all_sections self)
    /\ length (filter (fun l => contains (fold_case case_sensitive keyword)
                                  (fold_case case_sensitive l))
                 (split_lines (content data)))
       <= cr_match_count r.
Proof.
  intros Hr. apply content_result_In in Hr as [[name data] [Hin [_ ->]]].
  exists data. split; [exact Hin|].
  cbn [content_result_of cr_match_count]. unfold content_count. cbn [snd].
  etransitivity; [|apply matching_lines_le_count].
  rewrite split_lines_fold_case.
  set (p := contains (fold_case case_sensitive keyword)).
  assert (H : forall ls : list str,
             length (filter (fun l => p (fold_case case_sensitive l)) ls)
             = length (filter p (map (fold_case case_sensitive) ls))).
  { induction ls as [|l ls IH]; [reflexivity|]. cbn [filter map].
    destruct (p (fold_case case_sensitive l)); simpl; now rewrite IH. }
  now rewrite H.
Qed.

Lemma match_count_covers_matching_lines_witness :
  exists data,
    In (py "Doc: B", data) (all_sections (index_of doc_ABC (py "Doc")))
    /\ length (filter (fun l => contains (fold_case false (py "hello"))
                                  (fold_case false l))
                 (split_lines (content data)))
       <= 2.
Proof.
  apply (@match_count_covers_matching_lines
           (index_of doc_ABC (py "Doc")) (py "hello") false
           (content_result_of (py "hello") false
              (py "Doc: B",
               section_record (py "Doc") (py "Doc: B")
                 [py "## B"; py "hello hello"] 2))).
  vm_compute. left. reflexivity.
Defined.

(** ** Distinct header texts *)

(** X22. Only a document whose header lines have pairwise distinct
    trimmed texts can be put together again from the contents of its
    sections: a repeated header text always costs a section. *)
Theorem rejoin_needs_distinct_titles (text dtype : str) :
  rejoins text dtype -> NoDup (header_titles text).
Proof.
  unfold rejoins. intros [pads [HF Hj]].
  apply (f_equal nonws) in Hj. rewrite nonws_join, (nonws_padded HF) in Hj.
  unfold from_first_header in Hj.
  rewrite <- chunks_from_dropwhile, <- join_concat, nonws_join in Hj.
  2:{ rewrite Forall_forall. intros g Hg. apply in_map_iff in Hg.
      destruct Hg as [c [<- Hc]].
      pose proof (chunks_from_wf (split_lines text)) as Hwf.
      rewrite Forall_forall in Hwf.
      destruct (Hwf c Hc) as [h [body [-> _]]]. discriminate. }
  rewrite parse_sections_chunks in Hj.
  assert (Hnd : NoDup (PyDict.keys (map (chunk_item dtype) (chunks text)))).
  { apply merge_weight_NoDup with (weight := item_weight).
    - intros item Hi. apply in_map_iff in Hi as [c [<- Hc]].
      unfold item_weight. simpl. rewrite nonws_strip.
      destruct (chunk_text_hash c _ Hc) as [t ->]. unfold nonws. simpl. lia.
    - unfold PyDict.values in Hj. rewrite !map_map in Hj.
      rewrite !map_map. unfold item_weight. rewrite Hj.
      f_equal. apply map_ext. intros c. simpl. symmetry. apply nonws_strip. }
  rewrite keys_chunk_items in Hnd.
  rewrite <- chunks_titles.
  apply (NoDup_map_inv (fun t => dtype ++ py ": " ++ t)).
  now rewrite map_map.
Qed.

Lemma rejoin_needs_distinct_titles_witness : NoDup (header_titles doc_AB).
Proof.
  apply (@rejoin_needs_distinct_titles doc_AB (py "Doc")).
  exists [([], []); ([], [LF])]. split.
  - vm_compute. repeat constructor.
  - vm_compute. reflexivity.
Defined.

(** ** Parsing a section again *)

Lemma skipn_length_app (A : Type) (a b : list A) :
  skipn (length a) (a ++ b) = b.
Proof. induction a as [|x a IH]; [reflexivity|exact IH]. Qed.

(** A header line is made of hashes, a whitespace character and at
    least one more character. *)
Lemma header_match_make (g rest : str) (w : ascii) :
  forallb (Ascii.eqb HASH) g = true -> 1 <= length g <= 6 ->
  isspace w = true -> rest <> [] ->
  exists g2,
    header_match (g ++ w :: rest) = Some (g, g2)
    /\ strip g2 = strip (w :: rest).
Proof.
  intros Hg Hlen Hw Hrest. unfold header_match.
  rewrite take_hashes_app; try assumption; try lia;
    [|intros ->; discriminate].
  rewrite skipn_length_app. cbn [takewhile dropwhile]. rewrite Hw.
  destruct g as [|x g]; [simpl in Hlen; lia|].
  pose proof (dropwhile_takewhile isspace rest) as Hr.
  pose proof (takewhile_all isspace rest) as Hsp.
  destruct (dropwhile isspace rest) as [|y tl] eqn:Ed.
  - rewrite app_nil_r in Hr. rewrite Hr in *.
    destruct rest as [|r0 rest']; [congruence|].
    eexists. split; [reflexivity|].
    rewrite (strip_space (w :: r0 :: rest'))
      by (cbn [forallb]; rewrite Hw; exact Hsp).
    apply strip_space. cbn [forallb]. rewrite andb_true_r.
    rewrite forallb_forall in Hsp. apply Hsp, last_cons_In.
  - eexists. split; [reflexivity|].
    unfold strip. f_equal. unfold lstrip. cbn [dropwhile]. rewrite Hw, Ed.
    assert (Hy : isspace y = false).
    { clear -Ed. induction rest as [|z rest IH]; [discriminate|].
      simpl in Ed. destruct (isspace z) eqn:Ez; [auto|].
      now injection Ed as <- _. }
    now rewrite Hy.
Qed.

(** Hashes alone, or with one character behind them, are no header. *)
Lemma header_match_short (g t : str) :
  forallb (Ascii.eqb HASH) g = true -> length g <= 6 -> length t <= 1 ->
  (forall c, In c t -> isspace c = true) ->
  header_match (g ++ t) = None.
Proof.
  intros Hg Hlen Ht Hsp. unfold header_match.
  rewrite take_hashes_app; try assumption.
  - rewrite skipn_length_app. destruct g; [reflexivity|].
    destruct t as [|w [|w' t]]; [reflexivity| |simpl in Ht; lia].
    cbn [takewhile dropwhile]. rewrite (Hsp w (or_introl eq_refl)).
    reflexivity.
  - destruct t as [|w t]; [exact I|].
    intros ->. specialize (Hsp HASH (or_introl eq_refl)). discriminate.
Qed.

(** The full shape of a header line. *)
Lemma header_match_parts (l g1 g2 : str) :
  header_match l = Some (g1, g2) ->
  exists w rest,
    l = g1 ++ w :: rest
    /\ isspace w = true /\ rest <> []
    /\ forallb (Ascii.eqb HASH) g1 = true
    /\ 1 <= length g1 <= 6
    /\ strip g2 = strip (w :: rest).
Proof.
  intros H. pose proof H as H'.
  apply header_match_shape in H'
    as [w [rest [Hl [Hw [Hg [Hlen Hs]]]]]].
  exists w, rest. repeat split; try assumption; try lia.
  intros ->. rewrite Hl in H.
  rewrite (@header_match_short g1 [w]) in H; try assumption;
    try (simpl; lia); [discriminate|].
  intros c [<-|[]]. exact Hw.
Qed.

(** A header line stays one when text is added at its end. *)
Lemma header_match_longer (l x g1 g2 : str) :
  header_match l = Some (g1, g2) ->
  exists g2', header_match (l ++ x) = Some (g1, g2').
Proof.
  intros H. apply header_match_parts in H
    as [w [rest [-> [Hw [Hr [Hg [Hlen _]]]]]]].
  rewrite <- app_assoc. change ((w :: rest) ++ x) with (w :: (rest ++ x)).
  destruct (@header_match_make g1 (rest ++ x) w) as [g2' [H' _]];
    try assumption.
  - intros E. apply app_eq_nil in E as [E _]. contradiction.
  - now exists g2'.
Qed.

Lemma is_header_shorter (l x : str) :
  is_header (l ++ x) = false -> is_header l = false.
Proof.
  unfold is_header. destruct (header_match l) as [[g1 g2]|] eqn:E;
    [|reflexivity].
  destruct (@header_match_longer l x g1 g2 E) as [g2' ->]. discriminate.
Qed.

(** The lines of two texts put together: the last line of the first
    and the first line of the second become one. *)
Lemma split_lines_app (a b : str) :
  split_lines (a ++ b)
  = removelast (split_lines a)
    ++ (last (split_lines a) [] ++ hd [] (split_lines b))
       :: tl (split_lines b).
Proof.
  induction a as [|c a IH].
  - pose proof (split_lines_not_nil b) as Hb. simpl.
    destruct (split_lines b); [congruence|reflexivity].
  - pose proof (split_lines_not_nil a) as Ha.
    change ((c :: a) ++ b) with (c :: (a ++ b)). cbn [split_lines].
    rewrite IH. destruct (Ascii.eqb c LF).
    + destruct (split_lines a) as [|l ls]; [congruence|reflexivity].
    + destruct (split_lines a) as [|l [|l' ls]]; [congruence| |];
        reflexivity.
Qed.

Lemma split_lines_chars (s l : str) (c : ascii) :
  In l (split_lines s) -> In c l -> In c s.
Proof.
  revert l. induction s as [|x s IH]; intros l Hl Hc.
  - destruct Hl as [<-|[]]. contradiction.
  - cbn [split_lines] in Hl. destruct (Ascii.eqb x LF).
    + destruct Hl as [<-|Hl]; [contradiction|]. right. eauto.
    + pose proof (split_lines_not_nil s) as Hn.
      destruct (split_lines s) as [|l0 ls]; [congruence|].
      destruct Hl as [<-|Hl].
      * destruct Hc as [<-|Hc]; [now left|right].
        apply (IH l0); [now left|exact Hc].
      * right. apply (IH l); [now right|exact Hc].
Qed.

(** Whitespace at the end does not change what [strip] gives. *)
Lemma strip_app_space (s x : str) :
  forallb isspace x = true -> strip (s ++ x) = strip s.
Proof.
  intros Hx. unfold strip, lstrip. rewrite dropwhile_app.
  destruct (dropwhile isspace s) as [|y r] eqn:E.
  - now rewrite dropwhile_all.
  - unfold rstrip. f_equal. rewrite rev_app_distr, dropwhile_app.
    rewrite dropwhile_all; [reflexivity|].
    rewrite forallb_forall in *. intros z Hz. apply Hx, in_rev, Hz.
Qed.

(** A stripped text that is not empty ends with a visible
    character. *)
Lemma strip_last (s : str) :
  strip s = [] \/ exists t x, strip s = t ++ [x] /\ isspace x = false.
Proof.
  unfold strip, rstrip.
  destruct (dropwhile isspace (rev (lstrip s))) as [|x r] eqn:E;
    [now left|right].
  exists (rev r), x. split; [reflexivity|].
  clear -E. induction (rev (lstrip s)) as [|z l IH]; [discriminate|].
  simpl in E. destruct (isspace z) eqn:Ez; [auto|].
  now injection E as <- _.
Qed.

(** The lines behind the header line of a chunk are no header
    lines. *)
Lemma chunks_from_body (lines : list str) :
  forallb (fun l => negb (is_header l)) (fst (chunks_from lines)) = true
  /\ Forall (fun c => exists h body,
               ch_lines c = h :: body
               /\ forallb (fun l => negb (is_header l)) body = true
               /\ forall x, In x (ch_lines c) -> In x lines)
       (snd (chunks_from lines)).
Proof.
  induction lines as [|l ls [IH1 IH2]];
    [split; [reflexivity|constructor]|].
  cbn [chunks_from]. destruct (chunks_from ls) as [pre cs] eqn:E.
  cbn [fst snd] in *.
  assert (IH2' : Forall (fun c => exists h body,
               ch_lines c = h :: body
               /\ forallb (fun l => negb (is_header l)) body = true
               /\ forall x, In x (ch_lines c) -> In x (l :: ls)) cs).
  { eapply Forall_impl; [|exact IH2].
    intros c [h [body [H1 [H2 H3]]]]. exists h, body.
    repeat split; auto. intros x Hx. right. auto. }
  pose proof (chunks_from_lines ls) as Hall. rewrite E in Hall.
  cbn [fst snd] in Hall.
  destruct (header_match l) as [[g1 g2]|] eqn:Eh; cbn [fst snd].
  - split; [reflexivity|]. constructor; [|exact IH2'].
    exists l, pre. cbn [ch_lines]. repeat split; auto.
    intros x [<-|Hx]; [now left|right].
    rewrite <- Hall. apply in_or_app. now left.
  - split; [|exact IH2']. cbn [forallb]. unfold is_header at 1.
    rewrite Eh. exact IH1.
Qed.

(** Lines that are no header lines behind a header line make one
    chunk. *)
Lemma chunks_from_single (h g1 g2 : str) (body : list str) :
  header_match h = Some (g1, g2) ->
  forallb (fun l => negb (is_header l)) body = true ->
  chunks_from (h :: body)
  = ([], [{| ch_group1 := g1; ch_group2 := g2; ch_lines := h :: body |}]).
Proof.
  intros Hh Hb.
  assert (Hc : chunks_from body = (body, [])).
  { induction body as [|l ls IH]; [reflexivity|].
    cbn [forallb] in Hb. apply andb_true_iff in Hb as [Hl Hb].
    cbn [chunks_from]. rewrite (IH Hb). unfold is_header in Hl.
    destruct (header_match l); [discriminate|reflexivity]. }
  cbn [chunks_from]. now rewrite Hc, Hh.
Qed.

Lemma hashes_no_LF (g : str) :
  forallb (Ascii.eqb HASH) g = true -> ~ In LF g.
Proof.
  rewrite forallb_forall. intros H Hin. apply H, Ascii.eqb_eq in Hin.
  discriminate.
Qed.

(** The text that the parser stores for a chunk starts with the
    hashes of the header line, and in the chunk only whitespace
    follows it. *)
Lemma stored_shape (h g1 g2 : str) (body : list str) :
  header_match h = Some (g1, g2) ->
  exists u ws,
    strip (join [LF] (h :: body)) = g1 ++ u
    /\ join [LF] (h :: body) = strip (join [LF] (h :: body)) ++ ws
    /\ forallb isspace ws = true
    /\ match u with [] => True | w :: _ => isspace w = true end.
Proof.
  intros h_header.
  destruct (@header_match_parts h g1 g2 h_header)
    as [w [rest [Hh [Hw [_ [Hg [Hlen _]]]]]]].
  destruct (join_cons_app h body) as [t Ht].
  set (whole := join [LF] (h :: body)) in *.
  assert (Hj : whole = g1 ++ w :: rest ++ t).
  { rewrite Ht, Hh, <- app_assoc. reflexivity. }
  clear Ht Hh h_header.
  destruct g1 as [|x g]; [simpl in Hlen; lia|].
  assert (Hx : x = HASH).
  { change (forallb (Ascii.eqb HASH) (x :: g))
      with (Ascii.eqb HASH x && forallb (Ascii.eqb HASH) g) in Hg.
    apply andb_true_iff in Hg as [Hx _]. now apply Ascii.eqb_eq in Hx. }
  subst x.
  destruct (@strip_split HASH (g ++ w :: rest ++ t) eq_refl)
    as [ws [H1 [H2 _]]].
  change (HASH :: g ++ w :: rest ++ t)
    with ((HASH :: g) ++ w :: rest ++ t) in H1.
  rewrite <- Hj in H1.
  exists (rstrip (w :: rest ++ t)), ws. repeat split; try assumption.
  - rewrite Hj. unfold strip.
    replace (lstrip ((HASH :: g) ++ w :: rest ++ t))
      with ((HASH :: g) ++ w :: rest ++ t) by reflexivity.
    apply rstrip_app_visible, hashes_visible, Hg.
  - destruct (rstrip_cons w (rest ++ t)) as [->|[u ->]]; [exact I|exact Hw].
Qed.

(** A stored text of hashes only is no header line. *)
Lemma reparse_hashes (h g1 g2 : str) :
  header_match h = Some (g1, g2) -> chunks g1 = [].
Proof.
  intros h_header.
  destruct (@header_match_parts h g1 g2 h_header)
    as [_ [_ [_ [_ [_ [Hg [Hlen _]]]]]]].
  unfold chunks. rewrite split_lines_visible by now apply hashes_no_LF.
  cbn [chunks_from]. rewrite <- (app_nil_r g1).
  rewrite header_match_short; try assumption; try lia;
    [reflexivity|simpl; lia|intros c []].
Qed.

(** Any other stored text is one chunk with the level and the header
    text of the section. *)
Lemma reparse_chunk (h g1 g2 : str) (body : list str) :
  header_match h = Some (g1, g2) ->
  forallb (fun l => negb (is_header l)) body = true ->
  Forall (fun l => ~ In LF l) (h :: body) ->
  strip (join [LF] (h :: body)) <> g1 ->
  exists g2',
    chunks (strip (join [LF] (h :: body)))
    = [{| ch_group1 := g1; ch_group2 := g2';
          ch_lines := split_lines (strip (join [LF] (h :: body))) |}]
    /\ strip g2' = strip g2.
Proof.
  intros h_header body_plain lines_visible Hne.
  destruct (@stored_shape h g1 g2 body h_header)
    as [u [ws [Hs [Hw [Hsp Hu]]]]].
  destruct (@header_match_parts h g1 g2 h_header)
    as [w [rest [Hh [Hw0 [Hrest [Hg [Hlen Hst]]]]]]].
  set (whole := join [LF] (h :: body)) in *.
  set (stored := strip whole) in *.
  (* the lines of the chunk against the lines of the stored text *)
  assert (Hl : h :: body
               = removelast (split_lines stored)
                 ++ (last (split_lines stored) []
                     ++ hd [] (split_lines ws))
                    :: tl (split_lines ws)).
  { rewrite <- split_lines_app, <- Hw. unfold whole.
    symmetry. apply split_lines_join; [discriminate|exact lines_visible]. }
  pose proof (split_lines_not_nil stored) as Hn.
  pose proof (split_lines_not_nil ws) as Hnw.
  pose proof (app_removelast_last [] Hn) as Hrl.
  assert (Hx0 : forallb isspace (hd [] (split_lines ws)) = true).
  { rewrite forallb_forall in *. intros c Hc. apply Hsp.
    apply (@split_lines_chars ws (hd [] (split_lines ws)) c);
      [|exact Hc].
    destruct (split_lines ws); [congruence|now left]. }
  unfold chunks. unfold str in Hl, Hrl.
  match type of Hrl with
  | _ = ?i ++ _ => remember i as ini eqn:Eini in Hrl, Hl
  end.
  clear Eini. destruct ini as [|i0 init].
  - (* the stored text is one line *)
    change ([] ++ [last (split_lines stored) []])
      with [last (split_lines stored) []] in Hrl.
    change (h :: body
            = (last (split_lines stored) [] ++ hd [] (split_lines ws))
              :: tl (split_lines ws)) in Hl.
    injection Hl as Hh' Hb.
    assert (Hone : stored = last (split_lines stored) []).
    { rewrite <- (join_split_lines stored) at 1. now rewrite Hrl. }
    destruct u as [|w' u'];
      [rewrite app_nil_r in Hs; contradiction|].
    (* what follows the hashes in the header line *)
    assert (Hrest' : w :: rest = (w' :: u') ++ hd [] (split_lines ws)).
    { apply (app_inv_head g1). rewrite <- Hh, Hh', <- Hone, Hs.
      now rewrite <- app_assoc. }
    injection Hrest' as <- Hrest'.
    assert (Hu' : u' <> []).
    { intros ->. destruct (strip_last whole) as [E|[t [x [E Hx]]]];
        fold stored in E.
      - rewrite Hs in E. destruct g1; [simpl in Hlen; lia|discriminate].
      - rewrite Hs in E.
        apply app_inj_tail in E as [_ <-]. congruence. }
    destruct (@header_match_make g1 u' w Hg Hlen Hw0 Hu')
      as [g2' [Hm Hs2]].
    exists g2'. split.
    + rewrite Hrl, <- Hone. cbn [chunks_from]. rewrite Hs, Hm.
      reflexivity.
    + rewrite Hs2, Hst, Hrest'.
      change (w :: u' ++ hd [] (split_lines ws))
        with ((w :: u') ++ hd [] (split_lines ws)).
      now rewrite strip_app_space.
  - (* the header line is kept whole *)
    change (h :: body
            = i0 :: (init
                     ++ (last (split_lines stored) []
                         ++ hd [] (split_lines ws))
                        :: tl (split_lines ws))) in Hl.
    injection Hl as Hh' Hb. subst i0. exists g2. split; [|reflexivity].
    rewrite Hrl. change ((h :: init) ++ [last (split_lines stored) []])
      with (h :: (init ++ [last (split_lines stored) []])).
    rewrite (@chunks_from_single h g1 g2); [reflexivity|exact h_header|].
    rewrite Hb in body_plain. rewrite forallb_app in *.
    apply andb_true_iff in body_plain as [Hi Hlast].
    rewrite Hi. cbn [forallb] in *.
    apply andb_true_iff in Hlast as [Hlast _].
    apply negb_true_iff in Hlast. apply is_header_shorter in Hlast.
    now rewrite Hlast.
Qed.

(** X23. The stored content of a section can be parsed again: when
    it is more than its leading hashes the result is exactly that
    section under its name, and when it consists of hashes only (an
    empty header text and nothing but blank lines) the result is
    empty. *)
Theorem section_reparse (text dtype name : str) (data : section_data) :
  In (name, data) (_parse_sections text dtype) ->
  (content data = take_hashes 6 (content data) ->
   _parse_sections (content data) dtype = [])
  /\ (content data <> take_hashes 6 (content data) ->
      _parse_sections (content data) dtype = [(name, data)]).
Proof.
  intros H. apply parse_sections_In in H as [c0 [Hin Hc]].
  pose proof (chunks_from_wf (split_lines text)) as Hwf.
  pose proof (chunks_from_body (split_lines text)) as [_ Hbody].
  rewrite Forall_forall in Hwf, Hbody.
  destruct (Hwf c0 Hin) as [h [body [Hl [Hm _]]]].
  destruct (Hbody c0 Hin) as [h' [body' [Hl' [Hplain Hsub]]]].
  rewrite Hl in Hl'. injection Hl' as <- <-.
  assert (Hvis : Forall (fun l => ~ In LF l) (h :: body)).
  { rewrite Forall_forall. intros x Hx.
    pose proof (split_lines_no_LF text) as Hv.
    rewrite Forall_forall in Hv. apply Hv, Hsub. now rewrite Hl. }
  injection Hc as -> ->.
  cbn [section_record content]. rewrite Hl.
  destruct (@stored_shape h (ch_group1 c0) (ch_group2 c0) body Hm)
    as [u [ws [Hs [_ [_ Hu]]]]].
  destruct (@header_match_parts h _ _ Hm)
    as [_ [_ [_ [_ [_ [Hg [Hlen _]]]]]]].
  assert (Hth : take_hashes 6 (strip (join [LF] (h :: body)))
                = ch_group1 c0).
  { rewrite Hs. apply take_hashes_app; try assumption; try lia.
    destruct u as [|w u]; [exact I|]. intros ->. discriminate. }
  rewrite Hth. split; intros Hcase.
  - rewrite Hcase, parse_sections_chunks.
    now rewrite (@reparse_hashes h (ch_group1 c0) (ch_group2 c0) Hm).
  - destruct (@reparse_chunk h (ch_group1 c0) (ch_group2 c0) body
                Hm Hplain Hvis Hcase) as [g2' [Hch Hg2]].
    rewrite parse_sections_chunks, Hch.
    cbn [map PyDict.merge fold_left PyDict.set fst snd].
    unfold chunk_item, chunk_name, section_record.
    cbn [ch_group1 ch_group2 ch_lines].
    rewrite Hg2, join_split_lines, strip_idem, split_ws_strip.
    reflexivity.
Qed.

Lemma section_reparse_witness :
  (content (section_record (py "Doc") (py "Doc: B")
              [py "## B"; py "hello again"; []] 2)
   = take_hashes 6
       (content (section_record (py "Doc") (py "Doc: B")
                   [py "## B"; py "hello again"; []] 2)) ->
   _parse_sections
     (content (section_record (py "Doc") (py "Doc: B")
                 [py "## B"; py "hello again"; []] 2)) (py "Doc") = [])
  /\ (content (section_record (py "Doc") (py "Doc: B")
                 [py "## B"; py "hello again"; []] 2)
      <> take_hashes 6
           (content (section_record (py "Doc") (py "Doc: B")
                       [py "## B"; py "hello again"; []] 2)) ->
      _parse_sections
        (content (section_record (py "Doc") (py "Doc: B")
                    [py "## B"; py "hello again"; []] 2)) (py "Doc")
      = [(py "Doc: B",
          section_record (py "Doc") (py "Doc: B")
            [py "## B"; py "hello again"; []] 2)]).
Proof.
  apply (@section_reparse doc_AB (py "Doc") (py "Doc: B")).
  vm_compute. right. left. reflexivity.
Defined.

(** A header line without text and without lines behind it is
    stored as its hashes, which parse to nothing. *)
Lemma section_reparse_bare :
  map (fun item => content (snd item))
    (_parse_sections (py "##  ") (py "Doc")) = [py "##"]
  /\ _parse_sections (py "##") (py "Doc") = [].
Proof. split; vm_compute; reflexivity. Qed.

(** ** No section twice *)

(** The items of a dictionary that pass a test still have pairwise
    distinct keys. *)
Lemma keys_filter_NoDup (V : Type) (test : str * V -> bool)
  (d : PyDict.dict V) :
  NoDup (PyDict.keys d) -> NoDup (PyDict.keys (filter test d)).
Proof.
  unfold PyDict.keys. induction d as [|[k v] d IH]; intros Hd.
  - constructor.
  - cbn [map fst] in Hd. apply NoDup_cons_iff in Hd as [Hk Hd].
    cbn [filter]. destruct (test (k, v)); [|now apply IH].
    cbn [map fst]. apply NoDup_cons; [|now apply IH].
    intros Hin. apply Hk. apply in_map_iff in Hin as [[k' v'] [E Hin]].
    apply filter_In in Hin as [Hin _]. simpl in E. subst k'.
    change k with (fst (k, v')). now apply in_map.
Qed.

(** X24. On the index built from two documents neither search
    returns a section twice: the names of the results of one search
    are pairwise distinct. *)
Theorem search_results_distinct (mcp_text sdk_text keyword : str)
  (case_sensitive : bool) :
  let self := DocumentParser_init mcp_text sdk_text in
  NoDup (map (@nr_section_name)
           (search_by_section_name self keyword case_sensitive))
  /\ NoDup (map (@cr_section_name)
              (search_by_content_text self keyword case_sensitive)).
Proof.
  intros self. pose proof (init_NoDup mcp_text sdk_text) as Hnd.
  fold self in Hnd. split.
  - rewrite search_by_section_name_eq.
    eapply Permutation_NoDup.
    + symmetry. apply Permutation_map, sorted_perm.
    + rewrite map_map. cbn [name_result_of nr_section_name].
      exact (@keys_filter_NoDup _ (name_matches keyword case_sensitive) _
               Hnd).
  - rewrite search_by_content_text_eq.
    eapply Permutation_NoDup.
    + symmetry. apply Permutation_map, sorted_perm.
    + rewrite map_map. cbn [content_result_of cr_section_name].
      exact (@keys_filter_NoDup _ (content_matches keyword case_sensitive)
               _ Hnd).
Qed.
